(** * The adaptive tree form: schema interpreter and data aggregation

    A shallow embedding of [main.py]: the leaf fields ([UserField] and its
    subclasses), the field-kind registry, the recursive [AdaptiveTreeNode]
    (construction from a schema, child selection, aggregation) and the
    [AdaptiveTreeForm] session that owns the root.

    Python objects are mutated in place; here every method takes the
    current object and returns the new one.  Exceptions are explicit: a
    computation of type [Py A] either returns a value or raises. *)

From Stdlib Require Import String Ascii List Bool Arith Lia.
Import ListNotations.
Set Warnings "-register-all".
Open Scope string_scope.

(** ** Python exceptions and results *)

Inductive PyException : Type :=
| KeyError (key : string)
| AttributeError (attribute : string)
| NotImplementedError
| JSONDecodeError (msg : string)
| OSError (msg : string).

Inductive Py (A : Type) : Type :=
| Return (a : A)
| Raise (e : PyException).
Arguments Return {A} a.
Arguments Raise {A} e.

Definition bind {A B : Type} (m : Py A) (k : A -> Py B) : Py B :=
  match m with
  | Return a => k a
  | Raise e => Raise e
  end.

Notation "x <- m ;; k" := (bind m (fun x => k))
  (at level 61, m at next level, right associativity).

(** A list comprehension [[f(x) for x in l]]: the first exception stops it. *)
Fixpoint comprehension {A B : Type} (f : A -> Py B) (l : list A) : Py (list B) :=
  match l with
  | [] => Return []
  | x :: l' => y <- f x ;; ys <- comprehension f l' ;; Return (y :: ys)
  end.

(** ** Strings: [str.join] and [str.split] *)

Definition newline : ascii := "010"%char.

(** [sep.join(parts)] *)
Definition str_join (sep : string) (parts : list string) : string :=
  String.concat sep parts.

(** [s.split(sep)] for a separator of one character, the only way the
    source calls it ([split("\n")]): the result is never empty, and two
    adjacent separators enclose an empty segment. *)
Fixpoint str_split (s : string) (sep : ascii) : list string :=
  match s with
  | EmptyString => [""]
  | String c s' =>
      if Ascii.eqb c sep then "" :: str_split s' sep
      else match str_split s' sep with
           | [] => [String c ""]
           | seg :: segs => String c seg :: segs
           end
  end.

(** Number of occurrences of a character. *)
Fixpoint str_count (s : string) (c : ascii) : nat :=
  match s with
  | EmptyString => 0
  | String a s' => (if Ascii.eqb a c then 1 else 0) + str_count s' c
  end.

Fixpoint str_mem (c : ascii) (s : string) : bool :=
  match s with
  | EmptyString => false
  | String a s' => Ascii.eqb a c || str_mem c s'
  end.


(** ** Python dictionaries

    A [dict] keeps its keys in insertion order; assigning to a key that is
    already present replaces the value and keeps the key's position. *)

Definition dict (V : Type) : Type := list (string * V).

Definition keys {V} (d : dict V) : list string := map fst d.
Definition values {V} (d : dict V) : list V := map snd d.

Fixpoint dict_get {V} (d : dict V) (k : string) : option V :=
  match d with
  | [] => None
  | (k', v) :: d' => if String.eqb k' k then Some v else dict_get d' k
  end.

Fixpoint dict_set {V} (d : dict V) (k : string) (v : V) : dict V :=
  match d with
  | [] => [(k, v)]
  | (k', v') :: d' =>
      if String.eqb k' k then (k', v) :: d' else (k', v') :: dict_set d' k v
  end.

(** [d[k]] *)
Definition getitem {V} (d : dict V) (k : string) : Py V :=
  match dict_get d k with
  | Some v => Return v
  | None => Raise (KeyError k)
  end.

(** The truth value of a container: empty is false. *)
Definition truthy {A} (l : list A) : bool :=
  match l with [] => false | _ :: _ => true end.

(** ** Leaf fields

    One constructor per class.  [_le] and [_te] stand for the text held by
    the [QLineEdit] and the [QTextEdit] the field owns; the user's typing
    changes them.  [MultipleFilesEdit] declares no widget and no [data]. *)

Inductive UserField : Type :=
| LineEditField (_name : string) (_le : string)
| MultipleTextEdit (_name : string) (_te : string)
| MultipleFilesEdit (_name : string).

Module Field.

(** [data] of each class; [MultipleFilesEdit] inherits [UserField.data]. *)
Definition data (self : UserField) : Py string :=
  match self with
  | LineEditField _ _le => Return _le
  | MultipleTextEdit _ _te => Return (str_join ", " (str_split _te newline))
  | MultipleFilesEdit _ => Raise NotImplementedError
  end.

(** The user replaces the text of the field's input widget. *)
Definition enter (self : UserField) (text : string) : UserField :=
  match self with
  | LineEditField n _ => LineEditField n text
  | MultipleTextEdit n _ => MultipleTextEdit n text
  | MultipleFilesEdit n => MultipleFilesEdit n
  end.

(** The fields whose class implements [data]. *)
Definition implemented (f : UserField) : bool :=
  match f with MultipleFilesEdit _ => false | _ => true end.

End Field.

(** The constructors, as first-class values: what the registry maps to. *)
Inductive UserFieldClass : Type :=
| LineEditField_cls
| MultipleTextEdit_cls
| MultipleFilesEdit_cls.

(** [cls(parent, name)]: a fresh field, its input widget empty. *)
Definition construct (cls : UserFieldClass) (name : string) : UserField :=
  match cls with
  | LineEditField_cls => LineEditField name ""
  | MultipleTextEdit_cls => MultipleTextEdit name ""
  | MultipleFilesEdit_cls => MultipleFilesEdit name
  end.

(** [AdaptiveTreeNode.SUPPORTED_USER_FIELD_TYPES] *)
Definition SUPPORTED_USER_FIELD_TYPES : dict UserFieldClass :=
  [ ("LineEdit", LineEditField_cls);
    ("MultipleTextEdit", MultipleTextEdit_cls);
    ("MultipleFilesEdit", MultipleTextEdit_cls) ].

(** ** The schema

    [json.load] yields nested dictionaries and lists.  A schema fragment is
    a dictionary in which each of the three entries the constructor reads
    may be present or absent; a property is a dictionary with the entries
    [name] and [field].  Names and field kinds are strings.

    These are the schemas whose entries have the JSON types the constructor
    expects.  Other JSON values (a number for a name, a string where a list
    of fragments is expected) have no counterpart here: on those the
    constructor may raise [TypeError], which no statement below covers. *)

Record property_info : Type := PropertyInfo {
  info_name : option string;
  info_field : option string }.

Inductive tree_dict : Type :=
| TreeDict (name : option string)
           (properties : option (list property_info))
           (subwidgets : option (list tree_dict)).

(** [d[key]] for an entry that may be absent. *)
Definition entry {A} (key : string) (e : option A) : Py A :=
  match e with
  | Some a => Return a
  | None => Raise (KeyError key)
  end.

Definition tree_name (tree : tree_dict) : option string :=
  match tree with TreeDict name _ _ => name end.

(** ** The selection control

    A [QComboBox] holds its entries and the current one.  The entries the
    source adds are dictionary keys, pairwise distinct, so the current
    entry is recorded by its text ([None]: no current entry). *)

Record QComboBox : Type := ComboBox {
  items : list string;
  current : option string }.

Module Combo.

(** [QComboBox()] *)
Definition new : QComboBox := ComboBox [] None.

(** [clear()] *)
Definition clear (cb : QComboBox) : QComboBox := ComboBox [] None.

(** [addItems(texts)]: the first entry added to an empty box becomes the
    current one. *)
Definition addItems (cb : QComboBox) (texts : list string) : QComboBox :=
  ComboBox (items cb ++ texts)
           (match current cb with
            | Some t => Some t
            | None => hd_error (items cb ++ texts)
            end).

(** [currentText()]: the empty string when there is no current entry. *)
Definition currentText (cb : QComboBox) : string :=
  match current cb with
  | Some t => t
  | None => ""
  end.

(** The user picks the entry [text]. *)
Definition activate (cb : QComboBox) (text : string) : QComboBox :=
  ComboBox (items cb) (Some text).

End Combo.

(** ** Tree nodes *)

(** What a widget was given as its Qt parent: nothing, some other widget
    (the form), or a tree node, of which the name is all a child reads. *)
Inductive QParent : Type :=
| NoParent
| WidgetParent
| TreeNodeParent (parent_name : string).

Definition isinstance_AdaptiveTreeNode (p : QParent) : bool :=
  match p with TreeNodeParent _ => true | _ => false end.

(** The attributes of the class, plus [parent] (what [self.parent()]
    answers) and [shown] (whether the last of [show()] and [hide()] called
    on the widget was [show()]).  [_selected_widget] refers to one of the
    objects stored in [_subwidgets]; the reference is kept as the key under
    which that object is stored, so that whatever happens to the child is
    seen through both. *)
Inductive AdaptiveTreeNode : Type := TreeNode {
  parent : QParent;
  _subwidgets : dict AdaptiveTreeNode;
  _properties_widgets : dict UserField;
  _name : string;
  _select_combo : option QComboBox;
  _label_name : option string;
  _selected_widget : option string;
  shown : bool }.

Definition set_shown (b : bool) (w : AdaptiveTreeNode) : AdaptiveTreeNode :=
  TreeNode (parent w) (_subwidgets w) (_properties_widgets w) (_name w)
           (_select_combo w) (_label_name w) (_selected_widget w) b.

(** [widget.show()] and [widget.hide()] *)
Definition show : AdaptiveTreeNode -> AdaptiveTreeNode := set_shown true.
Definition hide : AdaptiveTreeNode -> AdaptiveTreeNode := set_shown false.

Definition set_subwidgets (w : AdaptiveTreeNode) (d : dict AdaptiveTreeNode)
  : AdaptiveTreeNode :=
  TreeNode (parent w) d (_properties_widgets w) (_name w)
           (_select_combo w) (_label_name w) (_selected_widget w) (shown w).

Definition set_properties_widgets (w : AdaptiveTreeNode) (d : dict UserField)
  : AdaptiveTreeNode :=
  TreeNode (parent w) (_subwidgets w) d (_name w)
           (_select_combo w) (_label_name w) (_selected_widget w) (shown w).

Definition set_name (w : AdaptiveTreeNode) (name : string) : AdaptiveTreeNode :=
  TreeNode (parent w) (_subwidgets w) (_properties_widgets w) name
           (_select_combo w) (_label_name w) (_selected_widget w) (shown w).

Definition set_select_combo (w : AdaptiveTreeNode) (cb : option QComboBox)
  : AdaptiveTreeNode :=
  TreeNode (parent w) (_subwidgets w) (_properties_widgets w) (_name w)
           cb (_label_name w) (_selected_widget w) (shown w).

Definition set_selected_widget (w : AdaptiveTreeNode) (sel : option string)
  : AdaptiveTreeNode :=
  TreeNode (parent w) (_subwidgets w) (_properties_widgets w) (_name w)
           (_select_combo w) (_label_name w) sel (shown w).

(** *** [update_subwidgets]

    One pass over [self._subwidgets.items()]: the widget stored under
    [name] is shown and becomes the selected one, every other is hidden.
    The pass returns the widgets as it leaves them and the selection. *)
Fixpoint update_loop (its : dict AdaptiveTreeNode) (name : string)
         (selected : option string)
  : dict AdaptiveTreeNode * option string :=
  match its with
  | [] => ([], selected)
  | (widget_name, widget) :: rest =>
      if String.eqb widget_name name then
        let (rest', selected') := update_loop rest name (Some widget_name) in
        ((widget_name, show widget) :: rest', selected')
      else
        let (rest', selected') := update_loop rest name selected in
        ((widget_name, hide widget) :: rest', selected')
  end.

(** A method that changes [self] returns the new [self] and its outcome. *)
Definition update_subwidgets (self : AdaptiveTreeNode) (name : string)
  : AdaptiveTreeNode * Py unit :=
  let (subwidgets', selected') :=
    update_loop (_subwidgets self) name (_selected_widget self) in
  (set_selected_widget (set_subwidgets self subwidgets') selected', Return tt).

Definition on_selection_changed (self : AdaptiveTreeNode) (text : string)
  : AdaptiveTreeNode * Py unit :=
  update_subwidgets self text.

(** *** [__init__] *)

(** The loop over [tree["properties"]]. *)
Fixpoint build_properties (infos : list property_info) (acc : dict UserField)
  : Py (dict UserField) :=
  match infos with
  | [] => Return acc
  | properties_info :: rest =>
      kind <- entry "field" (info_field properties_info) ;;
      cls <- getitem SUPPORTED_USER_FIELD_TYPES kind ;;
      name <- entry "name" (info_name properties_info) ;;
      let user_field := construct cls name in
      key <- entry "name" (info_name properties_info) ;;
      build_properties rest (dict_set acc key user_field)
  end.

Fixpoint init (parent : QParent) (tree : tree_dict) : Py AdaptiveTreeNode :=
  match tree with
  | TreeDict name properties subwidgets =>
      _name <- entry "name" name ;;
      let _label_name :=
        match parent with
        | TreeNodeParent parent_name => Some (_name ++ " " ++ parent_name)
        | _ => None
        end in
      _subwidgets <-
        match subwidgets with
        | None => Return []
        | Some infos =>
            (fix loop (infos : list tree_dict) (acc : dict AdaptiveTreeNode)
               : Py (dict AdaptiveTreeNode) :=
               match infos with
               | [] => Return acc
               | subwidget_info :: rest =>
                   subwidget <- init (TreeNodeParent _name) subwidget_info ;;
                   key <- entry "name" (tree_name subwidget_info) ;;
                   loop rest (dict_set acc key subwidget)
               end) infos []
        end ;;
      _properties_widgets <-
        match properties with
        | None => Return []
        | Some properties_dicts => build_properties properties_dicts []
        end ;;
      let self :=
        TreeNode parent _subwidgets _properties_widgets _name
                 None _label_name None false in
      if truthy (keys _subwidgets) then
        let _select_combo :=
          Combo.addItems (Combo.clear Combo.new) (keys _subwidgets) in
        let self := set_select_combo self (Some _select_combo) in
        let (self, outcome) :=
          update_subwidgets self (Combo.currentText _select_combo) in
        _ <- outcome ;;
        Return self
      else
        Return self
  end.

(** The loop over [tree["subwidgets"]] on its own, for a node of name
    [_name]. *)
Fixpoint build_subwidgets (_name : string) (infos : list tree_dict)
         (acc : dict AdaptiveTreeNode) : Py (dict AdaptiveTreeNode) :=
  match infos with
  | [] => Return acc
  | subwidget_info :: rest =>
      subwidget <- init (TreeNodeParent _name) subwidget_info ;;
      key <- entry "name" (tree_name subwidget_info) ;;
      build_subwidgets _name rest (dict_set acc key subwidget)
  end.

(** *** [data] *)

Fixpoint data (self : AdaptiveTreeNode) : Py string :=
  match self with
  | TreeNode parent _subwidgets _properties_widgets _name
             _select_combo _ _selected_widget _ =>
      let data_of (key : string) (absent : PyException) : Py string :=
        (fix lookup (d : dict AdaptiveTreeNode) : Py string :=
           match d with
           | [] => Raise absent
           | (k, widget) :: d' =>
               if String.eqb k key then data widget else lookup d'
           end) _subwidgets in
      if isinstance_AdaptiveTreeNode parent then
        let result := _name in
        result <-
          (if truthy _properties_widgets then
             texts <- comprehension Field.data (values _properties_widgets) ;;
             Return (result ++ " " ++ str_join ", " texts)
           else Return result) ;;
        if truthy _subwidgets then
          match _selected_widget with
          | Some key =>
              text <- data_of key (AttributeError "data") ;;
              Return (result ++ " " ++ text)
          | None => Raise (AttributeError "data")
          end
        else Return result
      else
        match _select_combo with
        | Some combo =>
            data_of (Combo.currentText combo)
                    (KeyError (Combo.currentText combo))
        | None => Raise (AttributeError "currentText")
        end
  end.

(** ** The form session *)

Record AdaptiveTreeForm : Type := Form { _root : option AdaptiveTreeNode }.

Module FormSession.

(** [AdaptiveTreeForm(parent)] *)
Definition new : AdaptiveTreeForm := Form None.

Section Load.

(** [json.load(open(file_name))]: what reading and parsing the named file
    gives, a schema or an exception. *)
Variable json_load_open : string -> Py tree_dict.

Definition load_from_file (self : AdaptiveTreeForm) (file_name : string)
  : AdaptiveTreeForm * Py unit :=
  match json_load_open file_name with
  | Raise e => (self, Raise e)
  | Return tree =>
      match init WidgetParent tree with
      | Raise e => (self, Raise e)
      | Return root => (Form (Some (show root)), Return tt)
      end
  end.

End Load.

(** [data]: [None] when no root is set. *)
Definition data (self : AdaptiveTreeForm) : Py (option string) :=
  match _root self with
  | Some root => text <- data root ;; Return (Some text)
  | None => Return None
  end.

End FormSession.

(** ** What the user does

    The program is event driven.  After a load the tree changes only when
    the user types into a field or picks an entry of a node's selection
    control; the control then emits [currentTextChanged] if its text
    changed, and the connected slot [on_selection_changed] runs.  A third
    event stands for a caller that invokes [update_subwidgets] itself, with
    any string.  A node is addressed by the keys leading to it from the
    root. *)

Definition on_key {V} (key : string) (f : V -> V) (d : dict V) : dict V :=
  map (fun kv => if String.eqb (fst kv) key then (fst kv, f (snd kv)) else kv) d.

Fixpoint at_path (path : list string)
         (f : AdaptiveTreeNode -> AdaptiveTreeNode) (w : AdaptiveTreeNode)
  : AdaptiveTreeNode :=
  match path with
  | [] => f w
  | key :: path' =>
      set_subwidgets w (on_key key (at_path path' f) (_subwidgets w))
  end.

Fixpoint node_at (path : list string) (w : AdaptiveTreeNode)
  : option AdaptiveTreeNode :=
  match path with
  | [] => Some w
  | key :: path' =>
      match dict_get (_subwidgets w) key with
      | Some child => node_at path' child
      | None => None
      end
  end.

(** Typing [text] into the field [field] of a node. *)
Definition type_into (field text : string) (w : AdaptiveTreeNode)
  : AdaptiveTreeNode :=
  set_properties_widgets
    w (on_key field (fun f => Field.enter f text) (_properties_widgets w)).

(** Picking the entry [text] in a node's selection control. *)
Definition pick (text : string) (w : AdaptiveTreeNode) : AdaptiveTreeNode :=
  match _select_combo w with
  | Some combo =>
      if existsb (String.eqb text) (items combo)
         && negb (String.eqb (Combo.currentText combo) text)
      then fst (on_selection_changed
                  (set_select_combo w (Some (Combo.activate combo text))) text)
      else w
  | None => w
  end.

(** Calling [update_subwidgets(name)] on a node. *)
Definition call_update_subwidgets (name : string) (w : AdaptiveTreeNode)
  : AdaptiveTreeNode :=
  fst (update_subwidgets w name).

Inductive Event : Type :=
| Typed (path : list string) (field text : string)
| Picked (path : list string) (text : string)
| Called (path : list string) (name : string).

Definition step (root : AdaptiveTreeNode) (e : Event) : AdaptiveTreeNode :=
  match e with
  | Typed path field text => at_path path (type_into field text) root
  | Picked path text => at_path path (pick text) root
  | Called path name => at_path path (call_update_subwidgets name) root
  end.

Definition run (root : AdaptiveTreeNode) (events : list Event)
  : AdaptiveTreeNode :=
  fold_left step events root.

(** The events that come from the user interface. *)
Definition from_gui (e : Event) : bool :=
  match e with Called _ _ => false | _ => true end.

(** ** Notions of the specification *)

(** The active child: the object [_selected_widget] refers to. *)
Definition active_child (w : AdaptiveTreeNode) : option AdaptiveTreeNode :=
  match _selected_widget w with
  | Some key => dict_get (_subwidgets w) key
  | None => None
  end.

(** The keys of the children that are active. *)
Definition active_children (w : AdaptiveTreeNode) : list string :=
  filter (fun key => match _selected_widget w with
                     | Some sel => String.eqb key sel
                     | None => false
                     end)
         (keys (_subwidgets w)).

(** The value of a leaf field, from its raw text. *)
Definition field_value (f : UserField) : string :=
  match f with
  | LineEditField _ raw => raw
  | MultipleTextEdit _ raw => str_join ", " (str_split raw newline)
  | MultipleFilesEdit _ => ""
  end.

(** The segment the fields of a node contribute. *)
Definition fields_segment (w : AdaptiveTreeNode) : string :=
  match _properties_widgets w with
  | [] => ""
  | _ :: _ =>
      " " ++ str_join ", " (map field_value (values (_properties_widgets w)))
  end.

(** The aggregation of a node that is not the root, in the words of the
    specification: the name, the fields' segment, and, when there are
    children, a space and the aggregation of the active child. *)
Inductive Aggregation : AdaptiveTreeNode -> string -> Prop :=
| Aggregation_leaf w :
    _subwidgets w = [] ->
    Aggregation w (_name w ++ fields_segment w)
| Aggregation_branch w child text :
    _subwidgets w <> [] ->
    active_child w = Some child ->
    Aggregation child text ->
    Aggregation w (_name w ++ fields_segment w ++ " " ++ text).

(** Every leaf field of a tree, inactive branches included, in order. *)
Fixpoint all_fields (w : AdaptiveTreeNode) : list UserField :=
  match w with
  | TreeNode _ _subwidgets _properties_widgets _ _ _ _ _ =>
      (values _properties_widgets
       ++ (fix over (d : dict AdaptiveTreeNode) : list UserField :=
             match d with
             | [] => []
             | (_, child) :: d' => all_fields child ++ over d'
             end) _subwidgets)%list
  end.

(** A property holds at every node of a tree. *)
Fixpoint Everywhere (P : AdaptiveTreeNode -> Prop) (w : AdaptiveTreeNode)
  : Prop :=
  match w with
  | TreeNode _ _subwidgets _ _ _ _ _ _ =>
      P w /\
      (fix over (d : dict AdaptiveTreeNode) : Prop :=
         match d with
         | [] => True
         | (_, child) :: d' => Everywhere P child /\ over d'
         end) _subwidgets
  end.

(** The state of one node as construction leaves it and every event keeps
    it: distinct keys, fields of implemented classes, children that know
    their parent is a tree node, and a selection and a selection control
    exactly when there are children. *)
Record node_ok (w : AdaptiveTreeNode) : Prop := NodeOk {
  ok_keys : NoDup (keys (_subwidgets w));
  ok_fields : forallb Field.implemented (values (_properties_widgets w)) = true;
  ok_children :
    Forall (fun kv => isinstance_AdaptiveTreeNode (parent (snd kv)) = true)
           (_subwidgets w);
  ok_leaf : _subwidgets w = [] -> _select_combo w = None;
  ok_selected :
    _subwidgets w <> [] ->
    exists key, _selected_widget w = Some key /\ In key (keys (_subwidgets w));
  ok_combo :
    _subwidgets w <> [] ->
    exists combo text,
      _select_combo w = Some combo /\ current combo = Some text /\
      items combo = keys (_subwidgets w) /\ In text (keys (_subwidgets w)) }.

(** The selection and the selection control agree. *)
Definition in_sync (w : AdaptiveTreeNode) : Prop :=
  forall combo, _select_combo w = Some combo -> _selected_widget w = current combo.

(** The [data] of the child stored under a key, [absent] raised when there
    is none: the search [data] makes through the children. *)
Definition child_data (w : AdaptiveTreeNode) (key : string)
           (absent : PyException) : Py string :=
  match dict_get (_subwidgets w) key with
  | Some child => data child
  | None => Raise absent
  end.

(** The invariant of a tree: [node_ok] at every node and, as long as every
    selection came through the selection controls, [in_sync] as well. *)
Definition state_ok (gui : bool) (w : AdaptiveTreeNode) : Prop :=
  node_ok w /\ (gui = true -> in_sync w).

Definition tree_ok (gui : bool) : AdaptiveTreeNode -> Prop :=
  Everywhere (state_ok gui).

(** What construction leaves besides: the selection is the first key. *)
Definition default_selected (w : AdaptiveTreeNode) : Prop :=
  _selected_widget w = hd_error (keys (_subwidgets w)).

Definition freshly_built : AdaptiveTreeNode -> Prop :=
  Everywhere (fun v => state_ok true v /\ default_selected v).

(** How a node wraps the aggregation of the child it consults: the root
    passes it on, any other node puts its name and fields before it. *)
Definition aggregate_with (w : AdaptiveTreeNode) (child_text : Py string)
  : Py string :=
  if isinstance_AdaptiveTreeNode (parent w) then
    text <- child_text ;;
    Return (_name w ++ fields_segment w ++ " " ++ text)
  else child_text.

(** Two dictionaries of widgets that differ at most in which are shown. *)
Definition same_but_shown (d d' : dict AdaptiveTreeNode) : Prop :=
  Forall2 (fun kv kv' => fst kv' = fst kv /\
                         exists b, snd kv' = set_shown b (snd kv)) d d'.

(** The root fragment of a schema lists no children. *)
Definition no_subwidgets (tree : tree_dict) : bool :=
  match tree with
  | TreeDict _ _ None | TreeDict _ _ (Some []) => true
  | TreeDict _ _ (Some (_ :: _)) => false
  end.

(** A property names a field kind the registry lacks. *)
Definition names_unknown_kind (info : property_info) : bool :=
  match info_field info with
  | Some kind =>
      match dict_get SUPPORTED_USER_FIELD_TYPES kind with
      | Some _ => false
      | None => true
      end
  | None => false
  end.

(** Some property of the schema, at any depth, does. *)
Fixpoint unknown_field_kind (tree : tree_dict) : bool :=
  match tree with
  | TreeDict _ properties subwidgets =>
      match properties with
      | Some infos => existsb names_unknown_kind infos
      | None => false
      end
      || match subwidgets with
         | Some infos =>
             (fix any (l : list tree_dict) : bool :=
                match l with
                | [] => false
                | t :: l' => unknown_field_kind t || any l'
                end) infos
         | None => false
         end
  end.

(** ** Sample schemas *)

Definition prop (name kind : string) : property_info :=
  PropertyInfo (Some name) (Some kind).

(** The schema given in the docstring of [AdaptiveTreeNode.__init__]. *)
Definition docstring_tree : tree_dict :=
  TreeDict None None
    (Some [ TreeDict (Some "Issue")
              (Some [ prop "issue_number" "LineEdit" ])
              (Some [ TreeDict (Some "In file(s)")
                        (Some [ prop "file_names" "MultipleFilesEdit" ]) None;
                      TreeDict (Some "In class")
                        (Some [ prop "class_names" "MultipleTextEdit" ]) None;
                      TreeDict (Some "") None None ]) ]).

(** The same schema with a name given to the outermost fragment. *)
Definition issue_tree : tree_dict :=
  match docstring_tree with
  | TreeDict _ properties subwidgets => TreeDict (Some "form") properties subwidgets
  end.

(** The tree built from [issue_tree]. *)
Definition issue_root : AdaptiveTreeNode :=
  Eval vm_compute in
    match init WidgetParent issue_tree with
    | Return w => w
    | Raise _ => TreeNode NoParent [] [] "" None None None false
    end.

(** The node "In class" of that tree, once it has been picked. *)
Definition in_class_node : AdaptiveTreeNode :=
  TreeNode (TreeNodeParent "Issue") []
           [("class_names", MultipleTextEdit "class_names" "")]
           "In class" None (Some "In class Issue") None true.

(** A schema whose root has no children. *)
Definition bare_tree : tree_dict :=
  TreeDict (Some "form") (Some [ prop "note" "LineEdit" ]) None.

(** A schema with a field kind the registry lacks. *)
Definition odd_tree : tree_dict :=
  TreeDict (Some "form") None
    (Some [ TreeDict (Some "Issue") (Some [ prop "when" "DateEdit" ]) None ]).

(** ** Further notions *)

(** What the constructor needs of a schema: a name in every fragment, and
    in every property a name and a field kind of the registry. *)
Definition property_ok (info : property_info) : bool :=
  match info_field info, info_name info with
  | Some kind, Some _ =>
      match dict_get SUPPORTED_USER_FIELD_TYPES kind with
      | Some _ => true
      | None => false
      end
  | _, _ => false
  end.

Fixpoint schema_ok (tree : tree_dict) : bool :=
  match tree with
  | TreeDict name properties subwidgets =>
      match name with Some _ => true | None => false end
      && match properties with
         | Some infos => forallb property_ok infos
         | None => true
         end
      && match subwidgets with
         | Some infos =>
             (fix all (l : list tree_dict) : bool :=
                match l with
                | [] => true
                | t :: l' => schema_ok t && all l'
                end) infos
         | None => true
         end
  end.

(** The last element of a list that satisfies a test. *)
Fixpoint find_last {A} (test : A -> bool) (l : list A) : option A :=
  match l with
  | [] => None
  | x :: l' =>
      match find_last test l' with
      | Some y => Some y
      | None => if test x then Some x else None
      end
  end.

Definition fragment_named (key : string) (t : tree_dict) : bool :=
  match tree_name t with
  | Some name => String.eqb name key
  | None => false
  end.

Definition property_named (key : string) (info : property_info) : bool :=
  match info_name info with
  | Some name => String.eqb name key
  | None => false
  end.

(** The field the constructor makes for a property. *)
Definition field_of (info : property_info) : option UserField :=
  match info_field info, info_name info with
  | Some kind, Some name =>
      match dict_get SUPPORTED_USER_FIELD_TYPES kind with
      | Some cls => Some (construct cls name)
      | None => None
      end
  | _, _ => None
  end.

(** A schema that uses the name "A" twice, for a branch with a field and
    then for one without. *)
Definition twice_tree : tree_dict :=
  TreeDict (Some "form") None
    (Some [ TreeDict (Some "A") (Some [ prop "first" "LineEdit" ]) None;
            TreeDict (Some "B") None None;
            TreeDict (Some "A") None None ]).

Definition twice_root : AdaptiveTreeNode :=
  Eval vm_compute in
    match init WidgetParent twice_tree with
    | Return w => w
    | Raise _ => TreeNode NoParent [] [] "" None None None false
    end.

(** A root with the two children "A" and "B". *)
Definition ab_tree : tree_dict :=
  TreeDict (Some "form") None
    (Some [ TreeDict (Some "A") None None; TreeDict (Some "B") None None ]).

Definition ab_root : AdaptiveTreeNode :=
  Eval vm_compute in
    match init WidgetParent ab_tree with
    | Return w => w
    | Raise _ => TreeNode NoParent [] [] "" None None None false
    end.

(** The keys of the children on which [show()] was called last. *)
Definition shown_children (w : AdaptiveTreeNode) : list string :=
  keys (filter (fun kv => shown (snd kv)) (_subwidgets w)).

(** The key of the child [data] asks, if it asks one: a node whose parent
    is a tree node follows [_selected_widget], any other the text of its
    selection control. *)
Definition consulted (w : AdaptiveTreeNode) : option string :=
  if isinstance_AdaptiveTreeNode (parent w) then
    if truthy (_subwidgets w) then _selected_widget w else None
  else
    match _select_combo w with
    | Some combo => Some (Combo.currentText combo)
    | None => None
    end.

(** The path leads, from [w] down, only through children [data] asks. *)
Fixpoint on_consulted_path (path : list string) (w : AdaptiveTreeNode) : bool :=
  match path with
  | [] => true
  | key :: path' =>
      match consulted w, dict_get (_subwidgets w) key with
      | Some key', Some child =>
          String.eqb key' key && on_consulted_path path' child
      | _, _ => false
      end
  end.

(** What no event changes: names, parents, labels, and which fields of which
    class and which children there are. *)
Inductive Shape : Type :=
| ShapeNode (parent : QParent) (name : string) (label : option string)
            (fields : list (string * UserFieldClass * string))
            (children : list (string * Shape)).

Definition class_of (f : UserField) : UserFieldClass :=
  match f with
  | LineEditField _ _ => LineEditField_cls
  | MultipleTextEdit _ _ => MultipleTextEdit_cls
  | MultipleFilesEdit _ => MultipleFilesEdit_cls
  end.

Definition field_name (f : UserField) : string :=
  match f with
  | LineEditField name _ | MultipleTextEdit name _ | MultipleFilesEdit name =>
      name
  end.

(** The text the input widget of a field holds. *)
Definition field_text (f : UserField) : string :=
  match f with
  | LineEditField _ text | MultipleTextEdit _ text => text
  | MultipleFilesEdit _ => ""
  end.

Fixpoint shape (w : AdaptiveTreeNode) : Shape :=
  match w with
  | TreeNode parent _subwidgets _properties_widgets _name _ _label_name _ _ =>
      ShapeNode parent _name _label_name
        (map (fun kf => (fst kf, class_of (snd kf), field_name (snd kf)))
             _properties_widgets)
        ((fix over (d : dict AdaptiveTreeNode) : list (string * Shape) :=
            match d with
            | [] => []
            | (key, child) :: d' => (key, shape child) :: over d'
            end) _subwidgets)
  end.

(** ** The main window

    [MainWindow] keeps the form it created last in [self.adaptive_form]
    and shows one as its central widget.  The forms are objects: both
    attributes may refer to the same one, and what the user does to the
    form on screen is seen through either.  [forms] holds every form
    created, oldest first, and a reference is a position in it. *)

Record MainWindow : Type := Window {
  forms : list AdaptiveTreeForm;
  adaptive_form : option nat;
  centralWidget : option nat;
  _button_copy_data : option nat }.

Module Main.

(** [MainWindow(parent)]: no attribute set yet, nothing shown. *)
Definition new : MainWindow := Window [] None None None.

Section Open.

Variable json_load_open : string -> Py tree_dict.

(** [on_open_model], given the file name the dialog answers (empty when
    the user cancels).  The new form is created and assigned before it
    loads; the lines after [load_from_file] run only if it returns. *)
Definition on_open_model (self : MainWindow) (model_file_name : string)
  : MainWindow * Py unit :=
  match model_file_name with
  | EmptyString => (self, Return tt)
  | String _ _ =>
      let id := length (forms self) in
      let (form, outcome) :=
        FormSession.load_from_file json_load_open FormSession.new
                                   model_file_name in
      let self :=
        Window (forms self ++ [form]) (Some id)
               (centralWidget self) (_button_copy_data self) in
      match outcome with
      | Raise e => (self, Raise e)
      | Return _ => (Window (forms self) (Some id) (Some id) (Some id), Return tt)
      end
  end.

End Open.

(** What a click on the copy button hands to the clipboard:
    [self.adaptive_form.data()], read when the click happens. *)
Definition copy_clicked (self : MainWindow) : Py (option string) :=
  match adaptive_form self with
  | Some id =>
      match nth_error (forms self) id with
      | Some form => FormSession.data form
      | None => Raise (AttributeError "data")
      end
  | None => Raise (AttributeError "adaptive_form")
  end.

(** The form on screen. *)
Definition displayed (self : MainWindow) : option AdaptiveTreeForm :=
  match centralWidget self with
  | Some id => nth_error (forms self) id
  | None => None
  end.

Fixpoint replace_nth {A} (n : nat) (x : A) (l : list A) : list A :=
  match l, n with
  | [], _ => []
  | _ :: l', 0 => x :: l'
  | y :: l', S n' => y :: replace_nth n' x l'
  end.

(** An event of the user reaches the tree of the form on screen. *)
Definition user_event (self : MainWindow) (e : Event) : MainWindow :=
  match centralWidget self with
  | Some id =>
      match nth_error (forms self) id with
      | Some (Form (Some root)) =>
          Window (replace_nth id (Form (Some (step root e))) (forms self))
                 (adaptive_form self) (centralWidget self)
                 (_button_copy_data self)
      | _ => self
      end
  | None => self
  end.

End Main.

(** * Properties *)

(** ** Strings *)

Lemma str_app_empty_r (s : string) : s ++ "" = s.
Proof. induction s as [|c s IH]; simpl; [reflexivity | now rewrite IH]. Qed.

Lemma str_app_assoc (s t u : string) : (s ++ t) ++ u = s ++ t ++ u.
Proof. induction s as [|c s IH]; simpl; [reflexivity | now rewrite IH]. Qed.






(** *** [split] and [join] are inverse to each other *)

Lemma str_split_nonempty (s : string) (sep : ascii) : str_split s sep <> [].
Proof.
  destruct s as [|c s]; simpl; [discriminate |].
  destruct (Ascii.eqb c sep); [discriminate |].
  destruct (str_split s sep); discriminate.
Qed.

Lemma str_split_length (s : string) (sep : ascii) :
  length (str_split s sep) = S (str_count s sep).
Proof.
  induction s as [|c s IH]; simpl; [reflexivity |].
  destruct (Ascii.eqb c sep); simpl; [now rewrite IH |].
  destruct (str_split s sep) as [|seg segs] eqn:E; simpl in *; [discriminate | exact IH].
Qed.

Lemma str_split_free (s : string) (sep : ascii) :
  Forall (fun seg => str_mem sep seg = false) (str_split s sep).
Proof.
  induction s as [|c s IH]; simpl.
  - repeat constructor.
  - destruct (Ascii.eqb c sep) eqn:E.
    + constructor; [reflexivity | exact IH].
    + destruct (str_split s sep) as [|seg segs]; [repeat constructor; simpl; now rewrite E |].
      inversion IH as [|? ? Hseg Hsegs]; subst.
      constructor; [simpl; now rewrite E | exact Hsegs].
Qed.

Lemma join_split (s : string) (sep : ascii) :
  str_join (String sep "") (str_split s sep) = s.
Proof.
  unfold str_join. induction s as [|c s IH]; simpl; [reflexivity |].
  destruct (Ascii.eqb c sep) eqn:E.
  - apply Ascii.eqb_eq in E. subst c.
    pose proof (str_split_nonempty s sep) as Hne.
    destruct (str_split s sep) as [|seg segs]; [congruence |].
    simpl in *. now rewrite IH.
  - destruct (str_split s sep) as [|seg segs] eqn:Es;
      [now apply str_split_nonempty in Es |].
    destruct segs as [|seg' segs]; simpl in *; now rewrite IH.
Qed.

Lemma str_split_free_one (s : string) (sep : ascii) :
  str_mem sep s = false -> str_split s sep = [s].
Proof.
  induction s as [|c s IH]; simpl; [reflexivity |].
  intros H. apply orb_false_iff in H as [Hc Hs].
  rewrite Hc, (IH Hs). reflexivity.
Qed.

Lemma str_split_app (s t : string) (sep : ascii) :
  str_mem sep s = false ->
  str_split (s ++ String sep t) sep = s :: str_split t sep.
Proof.
  induction s as [|c s IH]; simpl.
  - intros _. now rewrite Ascii.eqb_refl.
  - intros H. apply orb_false_iff in H as [Hc Hs].
    rewrite Hc, (IH Hs). reflexivity.
Qed.

Lemma split_join (segs : list string) (sep : ascii) :
  segs <> [] ->
  Forall (fun seg => str_mem sep seg = false) segs ->
  str_split (str_join (String sep "") segs) sep = segs.
Proof.
  unfold str_join. induction segs as [|seg segs IH]; [congruence |].
  intros _ Hfree. inversion Hfree as [|? ? Hseg Hsegs]; subst.
  destruct segs as [|seg' segs].
  - simpl. now apply str_split_free_one.
  - change (String.concat (String sep "") (seg :: seg' :: segs))
      with (seg ++ String sep (String.concat (String sep "") (seg' :: segs))).
    rewrite str_split_app by assumption.
    f_equal. apply IH; [discriminate | assumption].
Qed.

(** ** Leaf fields and the registry *)

(** C7. The value of a multi-line text-list field is its lines joined with
    [", "].  The lines of the raw text are its newline-free pieces in order,
    the only such list that gives the text back when joined with newlines:
    one more than there are newlines, empty ones included. *)
Theorem multiple_text_edit_value (name raw : string) :
  let lines := str_split raw newline in
  Field.data (MultipleTextEdit name raw) = Return (str_join ", " lines)
  /\ length lines = S (str_count raw newline)
  /\ Forall (fun line => str_mem newline line = false) lines
  /\ str_join (String newline "") lines = raw
  /\ (forall lines' : list string,
         lines' <> [] ->
         Forall (fun line => str_mem newline line = false) lines' ->
         str_join (String newline "") lines' = raw ->
         lines' = lines).
Proof.
  cbv zeta. split; [reflexivity |].
  split; [apply str_split_length |].
  split; [apply str_split_free |].
  split; [apply join_split |].
  intros lines' Hne Hfree <-. symmetry. now apply split_join.
Qed.

(** C9. The registry gives ["MultipleFilesEdit"] the constructor it gives
    ["MultipleTextEdit"]; a field built for a multi-file property is a
    [MultipleTextEdit], and its value is its lines joined with [", "]. *)
Theorem multiple_files_edit_is_text_edit (name raw : string) :
  getitem SUPPORTED_USER_FIELD_TYPES "MultipleFilesEdit"
  = getitem SUPPORTED_USER_FIELD_TYPES "MultipleTextEdit"
  /\ getitem SUPPORTED_USER_FIELD_TYPES "MultipleFilesEdit"
     = Return MultipleTextEdit_cls
  /\ build_properties [PropertyInfo (Some name) (Some "MultipleFilesEdit")] []
     = Return [(name, MultipleTextEdit name "")]
  /\ build_properties [PropertyInfo (Some name) (Some "MultipleFilesEdit")] []
     = build_properties [PropertyInfo (Some name) (Some "MultipleTextEdit")] []
  /\ Field.data (Field.enter (construct MultipleTextEdit_cls name) raw)
     = Return (str_join ", " (str_split raw newline)).
Proof. repeat split. Qed.

(** C8. A schema fragment without the [name] entry is not built: reading
    [tree["name"]] raises [KeyError].  The schema of the constructor's own
    docstring is such a fragment. *)
Theorem init_without_name_raises :
  (forall (parent : QParent) (properties : option (list property_info))
          (subwidgets : option (list tree_dict)),
      init parent (TreeDict None properties subwidgets) = Raise (KeyError "name"))
  /\ init WidgetParent docstring_tree = Raise (KeyError "name").
Proof. split; reflexivity. Qed.

(** ** Dictionaries *)

Lemma keys_dict_set {V} (d : dict V) (k : string) (v : V) :
  keys (dict_set d k v) = if existsb (String.eqb k) (keys d) then keys d
                          else (keys d ++ [k])%list.
Proof.
  induction d as [|[k' v'] d IH]; simpl; [reflexivity |].
  rewrite (String.eqb_sym k k').
  destruct (String.eqb k' k) eqn:E; simpl; [reflexivity |].
  rewrite IH. now destruct (existsb (String.eqb k) (keys d)).
Qed.

Lemma existsb_eqb_In (k : string) (l : list string) :
  existsb (String.eqb k) l = true <-> In k l.
Proof.
  rewrite existsb_exists. split.
  - intros (x & Hin & E). apply String.eqb_eq in E. now subst.
  - intros Hin. exists k. split; [assumption | apply String.eqb_refl].
Qed.

Lemma existsb_eqb_not_In (k : string) (l : list string) :
  existsb (String.eqb k) l = false <-> ~ In k l.
Proof.
  rewrite <- existsb_eqb_In. now destruct (existsb (String.eqb k) l).
Qed.

Lemma NoDup_keys_dict_set {V} (d : dict V) (k : string) (v : V) :
  NoDup (keys d) -> NoDup (keys (dict_set d k v)).
Proof.
  intros Hnd. rewrite keys_dict_set.
  destruct (existsb (String.eqb k) (keys d)) eqn:E; [assumption |].
  apply existsb_eqb_not_In in E.
  apply NoDup_rev in Hnd. rewrite <- (rev_involutive (keys d ++ [k])).
  apply NoDup_rev. rewrite rev_app_distr. simpl.
  constructor; [now rewrite <- in_rev | assumption].
Qed.

Lemma values_dict_set {V} (P : V -> Prop) (d : dict V) (k : string) (v : V) :
  Forall P (values d) -> P v -> Forall P (values (dict_set d k v)).
Proof.
  intros Hd Hv. induction d as [|[k' v'] d IH]; simpl.
  - now constructor.
  - inversion Hd as [|? ? Hv' Hd']; subst.
    destruct (String.eqb k' k); simpl; constructor; auto.
Qed.

Lemma dict_set_nonempty {V} (d : dict V) (k : string) (v : V) :
  dict_set d k v <> [].
Proof. destruct d as [|[k' v'] d]; simpl; [|destruct (String.eqb k' k)]; discriminate. Qed.

Lemma hd_keys_dict_set {V} (d : dict V) (k : string) (v : V) :
  hd_error (keys (dict_set d k v))
  = match d with [] => Some k | _ :: _ => hd_error (keys d) end.
Proof.
  destruct d as [|[k' v'] d]; simpl; [reflexivity |].
  now destruct (String.eqb k' k).
Qed.

Lemma dict_get_In {V} (d : dict V) (k : string) :
  In k (keys d) -> exists v, dict_get d k = Some v /\ In (k, v) d.
Proof.
  induction d as [|[k' v'] d IH]; simpl; [tauto |].
  intros Hin. destruct (String.eqb k' k) eqn:E.
  - apply String.eqb_eq in E. subst. eauto.
  - destruct Hin as [-> | Hin]; [now rewrite String.eqb_refl in E |].
    destruct (IH Hin) as (v & Hv & Hin'). eauto.
Qed.

Lemma dict_get_Some {V} (d : dict V) (k : string) (v : V) :
  dict_get d k = Some v -> In (k, v) d.
Proof.
  induction d as [|[k' v'] d IH]; simpl; [discriminate |].
  destruct (String.eqb k' k) eqn:E.
  - apply String.eqb_eq in E. intros [= ->]. subst. now left.
  - intros H. right. now apply IH.
Qed.

Lemma dict_get_None {V} (d : dict V) (k : string) :
  ~ In k (keys d) -> dict_get d k = None.
Proof.
  induction d as [|[k' v'] d IH]; simpl; [reflexivity |].
  intros Hnin. destruct (String.eqb k' k) eqn:E.
  - apply String.eqb_eq in E. tauto.
  - apply IH. tauto.
Qed.

Lemma keys_on_key {V} (key : string) (f : V -> V) (d : dict V) :
  keys (on_key key f d) = keys d.
Proof.
  unfold keys, on_key. rewrite map_map. apply map_ext.
  intros [k v]. simpl. now destruct (String.eqb k key).
Qed.

Lemma dict_get_on_key {V} (key : string) (f : V -> V) (d : dict V) (k : string) :
  dict_get (on_key key f d) k
  = if String.eqb k key then option_map f (dict_get d k) else dict_get d k.
Proof.
  induction d as [|[k' v'] d IH]; simpl; [now destruct (String.eqb k key) |].
  destruct (String.eqb k' key) eqn:E1; simpl;
    destruct (String.eqb k' k) eqn:E2; try exact IH.
  - apply String.eqb_eq in E1, E2. subst. now rewrite String.eqb_refl.
  - apply String.eqb_eq in E2. subst. now rewrite E1.
Qed.

Lemma filter_eqb_NoDup (k : string) (l : list string) :
  NoDup l -> In k l -> filter (fun x => String.eqb x k) l = [k].
Proof.
  induction l as [|x l IH]; simpl; [tauto |].
  intros Hnd Hin. inversion Hnd as [|? ? Hx Hl]; subst.
  destruct (String.eqb x k) eqn:E.
  - apply String.eqb_eq in E. subst. f_equal.
    clear IH Hin Hnd Hl. induction l as [|y l IH]; simpl; [reflexivity |].
    destruct (String.eqb y k) eqn:E.
    + apply String.eqb_eq in E. subst. simpl in Hx. tauto.
    + apply IH. simpl in Hx. tauto.
  - destruct Hin as [-> | Hin]; [now rewrite String.eqb_refl in E |].
    now apply IH.
Qed.

(** ** Trees: induction and unfolding *)

Lemma node_induction (P : AdaptiveTreeNode -> Prop) :
  (forall w, Forall P (values (_subwidgets w)) -> P w) ->
  forall w, P w.
Proof.
  intros step. fix IH 1. intros w. apply step.
  destruct w as [p subs props name combo label sel vis]. simpl.
  induction subs as [|[k child] subs IHsubs]; constructor.
  - apply IH.
  - exact IHsubs.
Qed.

Lemma tree_induction (P : tree_dict -> Prop) :
  (forall name properties, P (TreeDict name properties None)) ->
  (forall name properties infos,
      Forall P infos -> P (TreeDict name properties (Some infos))) ->
  forall tree, P tree.
Proof.
  intros leaf branch. fix IH 1. intros [name properties [infos|]].
  - apply branch. induction infos as [|t infos IHinfos]; constructor.
    + apply IH.
    + exact IHinfos.
  - apply leaf.
Qed.

Lemma Everywhere_unfold (P : AdaptiveTreeNode -> Prop) (w : AdaptiveTreeNode) :
  Everywhere P w <-> P w /\ Forall (Everywhere P) (values (_subwidgets w)).
Proof.
  destruct w as [p subs props name combo label sel vis]. simpl.
  apply and_iff_compat_l.
  induction subs as [|[k child] subs IH]; simpl.
  - split; [constructor | trivial].
  - rewrite IH. split.
    + intros [H1 H2]. now constructor.
    + intros H. inversion H; subst. now split.
Qed.

Lemma Everywhere_here (P : AdaptiveTreeNode -> Prop) (w : AdaptiveTreeNode) :
  Everywhere P w -> P w.
Proof. intros H. now apply Everywhere_unfold in H. Qed.

Lemma Everywhere_child (P : AdaptiveTreeNode -> Prop) (w child : AdaptiveTreeNode)
      (key : string) :
  Everywhere P w -> dict_get (_subwidgets w) key = Some child ->
  Everywhere P child.
Proof.
  intros H Hget. apply Everywhere_unfold in H as [_ H].
  rewrite Forall_forall in H. apply H.
  apply dict_get_Some in Hget. unfold values.
  now apply (in_map snd) in Hget.
Qed.

Lemma Everywhere_node_at (P : AdaptiveTreeNode -> Prop) (path : list string) :
  forall w v, Everywhere P w -> node_at path w = Some v -> Everywhere P v.
Proof.
  induction path as [|key path IH]; simpl; intros w v Hw Hat.
  - now inversion Hat; subst.
  - destruct (dict_get (_subwidgets w) key) as [child|] eqn:E; [|discriminate].
    eapply IH; [|exact Hat]. eapply Everywhere_child; eassumption.
Qed.

Lemma all_fields_unfold (w : AdaptiveTreeNode) :
  all_fields w
  = (values (_properties_widgets w)
     ++ flat_map all_fields (values (_subwidgets w)))%list.
Proof.
  destruct w as [p subs props name combo label sel vis]. simpl. f_equal.
  induction subs as [|[k child] subs IH]; simpl; [reflexivity | now rewrite IH].
Qed.

Lemma data_unfold (w : AdaptiveTreeNode) :
  data w =
  if isinstance_AdaptiveTreeNode (parent w) then
    result <-
      (if truthy (_properties_widgets w) then
         texts <- comprehension Field.data (values (_properties_widgets w)) ;;
         Return (_name w ++ " " ++ str_join ", " texts)
       else Return (_name w)) ;;
    if truthy (_subwidgets w) then
      match _selected_widget w with
      | Some key =>
          text <- child_data w key (AttributeError "data") ;;
          Return (result ++ " " ++ text)
      | None => Raise (AttributeError "data")
      end
    else Return result
  else
    match _select_combo w with
    | Some combo =>
        child_data w (Combo.currentText combo) (KeyError (Combo.currentText combo))
    | None => Raise (AttributeError "currentText")
    end.
Proof.
  assert (L : forall key absent d,
             (fix lookup (d : dict AdaptiveTreeNode) : Py string :=
                match d with
                | [] => Raise absent
                | (k, widget) :: d' =>
                    if String.eqb k key then data widget else lookup d'
                end) d
             = match dict_get d key with
               | Some child => data child
               | None => Raise absent
               end).
  { intros key absent. induction d as [|[k child] d IH]; [reflexivity |].
    simpl dict_get. destruct (String.eqb k key); [reflexivity | exact IH]. }
  destruct w as [p subs props name combo label sel vis].
  unfold child_data. simpl.
  destruct (isinstance_AdaptiveTreeNode p).
  - destruct (truthy props); simpl.
    + destruct (comprehension Field.data (values props)); simpl; [|reflexivity].
      destruct (truthy subs); [|reflexivity].
      destruct sel; [|reflexivity]. now rewrite L.
    + destruct (truthy subs); [|reflexivity].
      destruct sel; [|reflexivity]. now rewrite L.
  - destruct combo; [|reflexivity]. now rewrite L.
Qed.

(** ** Showing and hiding *)

Lemma set_shown_shown (w : AdaptiveTreeNode) : set_shown (shown w) w = w.
Proof. now destruct w. Qed.


Lemma data_set_shown (b : bool) (w : AdaptiveTreeNode) :
  data (set_shown b w) = data w.
Proof. now destruct w. Qed.

Lemma all_fields_set_shown (b : bool) (w : AdaptiveTreeNode) :
  all_fields (set_shown b w) = all_fields w.
Proof. now destruct w. Qed.

Lemma same_but_shown_refl (d : dict AdaptiveTreeNode) : same_but_shown d d.
Proof.
  induction d as [|[k w] d IH]; constructor; [|exact IH].
  split; [reflexivity |]. exists (shown w). simpl. now rewrite set_shown_shown.
Qed.


Lemma same_but_shown_keys (d d' : dict AdaptiveTreeNode) :
  same_but_shown d d' -> keys d' = keys d.
Proof.
  induction 1 as [|kv kv' d d' [Hk _] _ IH]; simpl; [reflexivity |].
  now rewrite Hk, IH.
Qed.

Lemma same_but_shown_get (d d' : dict AdaptiveTreeNode) (k : string) :
  same_but_shown d d' ->
  match dict_get d k, dict_get d' k with
  | Some w, Some w' => exists b, w' = set_shown b w
  | None, None => True
  | _, _ => False
  end.
Proof.
  induction 1 as [|[k1 w1] [k2 w2] d d' [Hk Hb] _ IH]; simpl; [trivial |].
  simpl in Hk, Hb. subst k2. destruct (String.eqb k1 k); [exact Hb | exact IH].
Qed.

Lemma same_but_shown_values (P : AdaptiveTreeNode -> Prop)
      (d d' : dict AdaptiveTreeNode) :
  (forall b w, P w -> P (set_shown b w)) ->
  same_but_shown d d' -> Forall P (values d) -> Forall P (values d').
Proof.
  intros HP. induction 1 as [|kv kv' d d' [_ (b & Hb)] _ IH]; simpl;
    intros HF; [constructor |].
  inversion HF; subst. constructor; [rewrite Hb; now apply HP | now apply IH].
Qed.

Lemma same_but_shown_all_fields (d d' : dict AdaptiveTreeNode) :
  same_but_shown d d' ->
  flat_map all_fields (values d') = flat_map all_fields (values d).
Proof.
  induction 1 as [|kv kv' d d' [_ (b & Hb)] _ IH]; simpl; [reflexivity |].
  now rewrite Hb, all_fields_set_shown, IH.
Qed.

Lemma child_data_same_but_shown (w w' : AdaptiveTreeNode) (key : string)
      (absent : PyException) :
  same_but_shown (_subwidgets w) (_subwidgets w') ->
  child_data w' key absent = child_data w key absent.
Proof.
  intros H. unfold child_data.
  pose proof (same_but_shown_get _ _ key H) as Hget.
  destruct (dict_get (_subwidgets w) key), (dict_get (_subwidgets w') key);
    try tauto.
  destruct Hget as (b & ->). apply data_set_shown.
Qed.

(** ** [update_subwidgets] *)

Lemma update_loop_spec (its : dict AdaptiveTreeNode) (name : string) :
  forall selected,
    same_but_shown its (fst (update_loop its name selected))
    /\ snd (update_loop its name selected)
       = (if existsb (String.eqb name) (keys its) then Some name else selected)
    /\ Forall (fun kv => shown (snd kv) = String.eqb (fst kv) name)
              (fst (update_loop its name selected)).
Proof.
  induction its as [|[k w] its IH]; intros selected; simpl.
  - repeat split; constructor.
  - rewrite (String.eqb_sym name k). destruct (String.eqb k name) eqn:E.
    + specialize (IH (Some k)).
      destruct (update_loop its name (Some k)) as [rest' selected']. simpl in *.
      destruct IH as (IH1 & IH2 & IH3). apply String.eqb_eq in E. subst k.
      split; [|split].
      * constructor; [|exact IH1]. split; [reflexivity |]. now exists true.
      * rewrite IH2. now destruct (existsb (String.eqb name) (keys its)).
      * constructor; [simpl; now rewrite String.eqb_refl | exact IH3].
    + specialize (IH selected).
      destruct (update_loop its name selected) as [rest' selected']. simpl in *.
      destruct IH as (IH1 & IH2 & IH3).
      split; [|split].
      * constructor; [|exact IH1]. split; [reflexivity |]. now exists false.
      * exact IH2.
      * constructor; [simpl; now rewrite E | exact IH3].
Qed.

Lemma update_subwidgets_spec (w : AdaptiveTreeNode) (name : string) :
  let w' := fst (update_subwidgets w name) in
  snd (update_subwidgets w name) = Return tt
  /\ parent w' = parent w
  /\ _name w' = _name w
  /\ _properties_widgets w' = _properties_widgets w
  /\ _select_combo w' = _select_combo w
  /\ shown w' = shown w
  /\ same_but_shown (_subwidgets w) (_subwidgets w')
  /\ _selected_widget w'
     = (if existsb (String.eqb name) (keys (_subwidgets w)) then Some name
        else _selected_widget w)
  /\ Forall (fun kv => shown (snd kv) = String.eqb (fst kv) name)
            (_subwidgets w').
Proof.
  unfold update_subwidgets.
  pose proof (update_loop_spec (_subwidgets w) name (_selected_widget w)) as H.
  destruct (update_loop (_subwidgets w) name (_selected_widget w))
    as [subwidgets' selected']. simpl in *.
  destruct H as (H1 & H2 & H3). repeat split; assumption.
Qed.

(** ** The invariant is kept by every event *)

Lemma tree_ok_intro (gui : bool) (w : AdaptiveTreeNode) :
  state_ok gui w -> Forall (tree_ok gui) (values (_subwidgets w)) ->
  tree_ok gui w.
Proof. intros H1 H2. apply Everywhere_unfold. now split. Qed.

Lemma tree_ok_elim (gui : bool) (w : AdaptiveTreeNode) :
  tree_ok gui w ->
  node_ok w /\ (gui = true -> in_sync w)
  /\ Forall (tree_ok gui) (values (_subwidgets w)).
Proof. intros H. apply Everywhere_unfold in H as [[H1 H2] H3]. auto. Qed.

Lemma tree_ok_weaken (w : AdaptiveTreeNode) : tree_ok true w -> tree_ok false w.
Proof.
  induction w as [w IH] using node_induction. intros H.
  apply tree_ok_elim in H as (Hok & _ & Hch).
  apply tree_ok_intro; [split; [assumption | discriminate] |].
  rewrite Forall_forall in *. auto.
Qed.

Lemma tree_ok_set_shown (gui b : bool) (w : AdaptiveTreeNode) :
  tree_ok gui w -> tree_ok gui (set_shown b w).
Proof.
  intros H. apply tree_ok_elim in H as ([] & Hsync & Hch).
  apply tree_ok_intro; [|exact Hch].
  split; [now constructor | exact Hsync].
Qed.

Lemma Forall_on_key {V} (Q : V -> Prop) (key : string) (g : V -> V)
      (d : dict V) :
  (forall v, Q v -> Q (g v)) ->
  Forall (fun kv => Q (snd kv)) d ->
  Forall (fun kv => Q (snd kv)) (on_key key g d).
Proof.
  intros Hg. unfold on_key. induction 1 as [|[k v] d Hv _ IH]; simpl;
    constructor; [|exact IH].
  destruct (String.eqb k key); simpl; auto.
Qed.

Lemma parents_same_but_shown (d d' : dict AdaptiveTreeNode) :
  same_but_shown d d' ->
  Forall (fun kv => isinstance_AdaptiveTreeNode (parent (snd kv)) = true) d ->
  Forall (fun kv => isinstance_AdaptiveTreeNode (parent (snd kv)) = true) d'.
Proof.
  induction 1 as [|kv kv' d d' [_ (b & Hb)] _ IH]; intros HF; [constructor |].
  inversion HF; subst. constructor; [now rewrite Hb | now apply IH].
Qed.

Lemma keys_nil {V} (d : dict V) : keys d = [] <-> d = [].
Proof. destruct d; simpl; split; congruence. Qed.

Lemma same_but_shown_nil (d d' : dict AdaptiveTreeNode) :
  same_but_shown d d' -> (d' = [] <-> d = []).
Proof.
  intros H. apply same_but_shown_keys in H.
  rewrite <- (keys_nil d), <- (keys_nil d'). now rewrite H.
Qed.

Lemma enter_implemented (fields : dict UserField) (field text : string) :
  forallb Field.implemented (values fields) = true ->
  forallb Field.implemented
          (values (on_key field (fun f => Field.enter f text) fields)) = true.
Proof.
  induction fields as [|[k f] fields IH]; simpl; [reflexivity |].
  intros H. apply andb_true_iff in H as [Hf Hrest].
  rewrite (IH Hrest), andb_true_r.
  destruct (String.eqb k field); simpl; [now destruct f | exact Hf].
Qed.

Lemma type_into_ok (gui : bool) (field text : string) (w : AdaptiveTreeNode) :
  tree_ok gui w ->
  tree_ok gui (type_into field text w)
  /\ parent (type_into field text w) = parent w.
Proof.
  intros H. split; [|reflexivity].
  apply tree_ok_elim in H as ([] & Hsync & Hch).
  apply tree_ok_intro; [|exact Hch].
  split; [|exact Hsync]. constructor; try assumption.
  simpl. now apply enter_implemented.
Qed.

Lemma call_update_subwidgets_node_ok (name : string) (w : AdaptiveTreeNode) :
  node_ok w -> node_ok (call_update_subwidgets name w).
Proof.
  intros []. unfold call_update_subwidgets.
  destruct (update_subwidgets_spec w name)
    as (_ & Hp & Hn & Hprops & Hcombo & _ & Hsame & Hsel & _).
  pose proof (same_but_shown_keys _ _ Hsame) as Hkeys.
  pose proof (same_but_shown_nil _ _ Hsame) as Hnil.
  constructor.
  - now rewrite Hkeys.
  - now rewrite Hprops.
  - now apply (parents_same_but_shown _ _ Hsame).
  - rewrite Hcombo, Hnil. assumption.
  - rewrite Hsel, Hkeys, Hnil.
    destruct (existsb (String.eqb name) (keys (_subwidgets w))) eqn:E.
    + intros _. exists name. split; [reflexivity | now apply existsb_eqb_In].
    + assumption.
  - rewrite Hcombo, Hkeys, Hnil. assumption.
Qed.

Lemma call_update_subwidgets_children (gui : bool) (name : string)
      (w : AdaptiveTreeNode) :
  Forall (tree_ok gui) (values (_subwidgets w)) ->
  Forall (tree_ok gui) (values (_subwidgets (call_update_subwidgets name w))).
Proof.
  unfold call_update_subwidgets.
  destruct (update_subwidgets_spec w name) as (_ & _ & _ & _ & _ & _ & Hsame & _).
  apply (same_but_shown_values _ _ _ (fun b v => tree_ok_set_shown gui b v) Hsame).
Qed.

Lemma call_update_subwidgets_ok (name : string) (w : AdaptiveTreeNode) :
  tree_ok false w ->
  tree_ok false (call_update_subwidgets name w)
  /\ parent (call_update_subwidgets name w) = parent w.
Proof.
  intros H. apply tree_ok_elim in H as (Hok & _ & Hch). split.
  - apply tree_ok_intro.
    + split; [now apply call_update_subwidgets_node_ok | discriminate].
    + now apply call_update_subwidgets_children.
  - unfold call_update_subwidgets. apply update_subwidgets_spec.
Qed.

Lemma pick_ok (gui : bool) (text : string) (w : AdaptiveTreeNode) :
  tree_ok gui w ->
  tree_ok gui (pick text w) /\ parent (pick text w) = parent w.
Proof.
  intros H. unfold pick.
  destruct (_select_combo w) as [combo|] eqn:Ecombo; [|now split].
  destruct (existsb (String.eqb text) (items combo)
            && negb (String.eqb (Combo.currentText combo) text)) eqn:Econd;
    [|now split].
  apply andb_true_iff in Econd as [Hin _]. apply existsb_eqb_In in Hin.
  unfold on_selection_changed.
  set (w0 := set_select_combo w (Some (Combo.activate combo text))).
  apply tree_ok_elim in H as (Hok & Hsync & Hch).
  assert (Hne : _subwidgets w <> []).
  { intros Hnil. apply (ok_leaf _ Hok) in Hnil. congruence. }
  destruct (ok_combo _ Hok Hne) as (combo' & text' & Hc & _ & Hitems & _).
  assert (combo' = combo) by congruence. subst combo'.
  rewrite Hitems in Hin.
  assert (Hok0 : node_ok w0).
  { destruct Hok. constructor; try assumption.
    - simpl. intros Hnil. now elim Hne.
    - simpl. intros _. exists (Combo.activate combo text), text. auto. }
  destruct (update_subwidgets_spec w0 text)
    as (_ & Hp & _ & _ & Hcombo & _ & _ & Hsel & _).
  split; [|exact Hp].
  apply tree_ok_intro.
  - split; [now apply (call_update_subwidgets_node_ok text w0) |].
    intros _ combo'. rewrite Hcombo. simpl. intros [= <-]. rewrite Hsel.
    simpl. apply existsb_eqb_In in Hin. now rewrite Hin.
  - now apply (call_update_subwidgets_children gui text w0).
Qed.

Lemma at_path_ok (gui : bool) (f : AdaptiveTreeNode -> AdaptiveTreeNode) :
  (forall v, tree_ok gui v -> tree_ok gui (f v) /\ parent (f v) = parent v) ->
  forall path w,
    tree_ok gui w ->
    tree_ok gui (at_path path f w) /\ parent (at_path path f w) = parent w.
Proof.
  intros Hf. induction path as [|key path IH]; intros w H; simpl; [auto |].
  split; [|reflexivity].
  apply tree_ok_elim in H as (Hok & Hsync & Hch).
  unfold values in Hch. rewrite Forall_map in Hch.
  assert (Hnil : on_key key (at_path path f) (_subwidgets w) = []
                 <-> _subwidgets w = []).
  { rewrite <- !keys_nil. now rewrite keys_on_key. }
  apply tree_ok_intro.
  - split; [|exact Hsync].
    destruct Hok as [Hkeys Hfields Hparents Hleaf Hselected Hcombo].
    constructor; simpl; rewrite ?keys_on_key, ?Hnil; try assumption.
    assert (Hboth : Forall (fun kv => tree_ok gui (snd kv) /\
                       isinstance_AdaptiveTreeNode (parent (snd kv)) = true)
                      (_subwidgets w)).
    { rewrite Forall_forall in *. auto. }
    apply (Forall_on_key
             (fun v => tree_ok gui v /\
                       isinstance_AdaptiveTreeNode (parent v) = true)
             key (at_path path f)) in Hboth.
    + rewrite Forall_forall in *. intros kv Hkv. now apply Hboth.
    + intros v [Hv Hpv]. destruct (IH v Hv) as [IH1 IH2].
      split; [assumption | now rewrite IH2].
  - simpl. unfold values. rewrite Forall_map.
    apply Forall_on_key; [|exact Hch]. intros v Hv. now apply IH.
Qed.

Lemma step_ok (gui : bool) (e : Event) (w : AdaptiveTreeNode) :
  (gui = true -> from_gui e = true) ->
  tree_ok gui w ->
  tree_ok gui (step w e) /\ parent (step w e) = parent w.
Proof.
  intros Hgui H. destruct e as [path field text|path text|path name]; simpl.
  - apply at_path_ok; [|exact H]. intros v. apply type_into_ok.
  - apply at_path_ok; [|exact H]. intros v. apply pick_ok.
  - destruct gui; [now specialize (Hgui eq_refl) |].
    apply at_path_ok; [|exact H]. intros v. apply call_update_subwidgets_ok.
Qed.

Lemma run_ok (gui : bool) (events : list Event) :
  (gui = true -> forallb from_gui events = true) ->
  forall w,
    tree_ok gui w ->
    tree_ok gui (run w events) /\ parent (run w events) = parent w.
Proof.
  unfold run. induction events as [|e events IH]; simpl; intros Hgui w H; [auto |].
  destruct (step_ok gui e w) as [H1 H2]; [|exact H |].
  - intros G. specialize (Hgui G). now apply andb_true_iff in Hgui.
  - destruct (IH) with (w := step w e) as [H3 H4]; [| exact H1 |].
    + intros G. specialize (Hgui G). now apply andb_true_iff in Hgui.
    + split; [exact H3 | congruence].
Qed.

(** ** Construction establishes the invariant *)

Lemma Everywhere_impl (P Q : AdaptiveTreeNode -> Prop) :
  (forall v, P v -> Q v) -> forall w, Everywhere P w -> Everywhere Q w.
Proof.
  intros HPQ. induction w as [w IH] using node_induction. intros H.
  apply Everywhere_unfold in H as [Hw Hch]. apply Everywhere_unfold.
  split; [auto |]. rewrite Forall_forall in *. auto.
Qed.

Lemma freshly_built_intro (w : AdaptiveTreeNode) :
  node_ok w -> in_sync w -> default_selected w ->
  Forall freshly_built (values (_subwidgets w)) ->
  freshly_built w.
Proof.
  intros H1 H2 H3 H4. apply Everywhere_unfold.
  split; [|exact H4]. split; [|exact H3]. split; [exact H1 | now intros _].
Qed.

Lemma freshly_built_set_shown (b : bool) (w : AdaptiveTreeNode) :
  freshly_built w -> freshly_built (set_shown b w).
Proof.
  intros H. apply Everywhere_unfold in H as [[[[] Hsync] Hdef] Hch].
  apply Everywhere_unfold. split; [|exact Hch].
  split; [split; [now constructor | exact Hsync] | exact Hdef].
Qed.

Lemma freshly_built_tree_ok (w : AdaptiveTreeNode) :
  freshly_built w -> tree_ok true w.
Proof. apply Everywhere_impl. tauto. Qed.

Lemma init_unfold (parent : QParent) (name : option string)
      (properties : option (list property_info))
      (subwidgets : option (list tree_dict)) :
  init parent (TreeDict name properties subwidgets) =
  (_name <- entry "name" name ;;
   _subwidgets <-
     match subwidgets with
     | None => Return []
     | Some infos => build_subwidgets _name infos []
     end ;;
   _properties_widgets <-
     match properties with
     | None => Return []
     | Some properties_dicts => build_properties properties_dicts []
     end ;;
   let self :=
     TreeNode parent _subwidgets _properties_widgets _name
              None
              (match parent with
               | TreeNodeParent parent_name => Some (_name ++ " " ++ parent_name)
               | _ => None
               end)
              None false in
   if truthy (keys _subwidgets) then
     let _select_combo :=
       Combo.addItems (Combo.clear Combo.new) (keys _subwidgets) in
     let self := set_select_combo self (Some _select_combo) in
     let (self, outcome) :=
       update_subwidgets self (Combo.currentText _select_combo) in
     _ <- outcome ;;
     Return self
   else
     Return self).
Proof.
  simpl. destruct name as [_name|]; simpl; [|reflexivity].
  destruct subwidgets as [infos|]; [|reflexivity].
  match goal with
  | |- bind ?a _ = bind ?b _ => assert (E : a = b); [|now rewrite E]
  end.
  generalize (@nil (string * AdaptiveTreeNode)).
  induction infos as [|t infos IH]; intros acc; simpl; [reflexivity |].
  destruct (init (TreeNodeParent _name) t); simpl; [|reflexivity].
  destruct (entry "name" (tree_name t)); simpl; [|reflexivity].
  apply IH.
Qed.

Lemma registry_implemented (kind : string) (cls : UserFieldClass) (name : string) :
  getitem SUPPORTED_USER_FIELD_TYPES kind = Return cls ->
  Field.implemented (construct cls name) = true.
Proof.
  unfold getitem, SUPPORTED_USER_FIELD_TYPES, dict_get.
  destruct (String.eqb "LineEdit" kind); [now intros [= <-] |].
  destruct (String.eqb "MultipleTextEdit" kind); [now intros [= <-] |].
  destruct (String.eqb "MultipleFilesEdit" kind); [now intros [= <-] |].
  discriminate.
Qed.

Lemma build_properties_ok (infos : list property_info) :
  forall acc d,
    build_properties infos acc = Return d ->
    forallb Field.implemented (values acc) = true ->
    forallb Field.implemented (values d) = true.
Proof.
  induction infos as [|info infos IH]; simpl; intros acc d H Hacc.
  - now inversion H; subst.
  - destruct (entry "field" (info_field info)) as [kind|]; simpl in H;
      [|discriminate].
    destruct (getitem SUPPORTED_USER_FIELD_TYPES kind) as [cls|] eqn:Ecls;
      simpl in H; [|discriminate].
    destruct (entry "name" (info_name info)) as [name|]; simpl in H;
      [|discriminate].
    apply (IH _ _ H). rewrite forallb_forall in *.
    apply Forall_forall. apply values_dict_set.
    + now apply Forall_forall.
    + eapply registry_implemented; eassumption.
Qed.

Lemma build_subwidgets_ok (_name : string) (infos : list tree_dict) :
  Forall (fun t => forall p w, init p t = Return w ->
                               freshly_built w /\ parent w = p) infos ->
  forall acc d,
    build_subwidgets _name infos acc = Return d ->
    NoDup (keys acc) ->
    Forall (fun v => freshly_built v /\
                     isinstance_AdaptiveTreeNode (parent v) = true) (values acc) ->
    NoDup (keys d)
    /\ Forall (fun v => freshly_built v /\
                        isinstance_AdaptiveTreeNode (parent v) = true) (values d)
    /\ hd_error (keys d)
       = match acc with
         | [] => match infos with t :: _ => tree_name t | [] => None end
         | _ :: _ => hd_error (keys acc)
         end.
Proof.
  induction 1 as [|t infos Ht _ IH]; simpl; intros acc d H Hnd Hacc.
  - inversion H; subst. repeat split; try assumption. now destruct d.
  - destruct (init (TreeNodeParent _name) t) as [subwidget|] eqn:Einit;
      simpl in H; [|discriminate].
    destruct (entry "name" (tree_name t)) as [key|] eqn:Ekey; simpl in H;
      [|discriminate].
    destruct (Ht _ _ Einit) as [Hok Hp].
    destruct (IH _ _ H) as (H1 & H2 & H3).
    + now apply NoDup_keys_dict_set.
    + apply values_dict_set; [assumption |]. split; [assumption |].
      now rewrite Hp.
    + repeat split; try assumption. rewrite H3.
      pose proof (dict_set_nonempty acc key subwidget) as Hne.
      destruct (dict_set acc key subwidget) eqn:Eset; [congruence |].
      rewrite <- Eset, hd_keys_dict_set. destruct acc; [|reflexivity].
      destruct (tree_name t); simpl in Ekey; congruence.
Qed.

Lemma build_subwidgets_nil (_name : string) (infos : list tree_dict) :
  forall acc d,
    build_subwidgets _name infos acc = Return d ->
    (d = [] <-> infos = [] /\ acc = []).
Proof.
  induction infos as [|t infos IH]; simpl; intros acc d H.
  - inversion H; subst. tauto.
  - destruct (init (TreeNodeParent _name) t) as [subwidget|]; simpl in H;
      [|discriminate].
    destruct (entry "name" (tree_name t)) as [key|]; simpl in H; [|discriminate].
    apply IH in H. pose proof (dict_set_nonempty acc key subwidget).
    split; [tauto | intros [? _]; discriminate].
Qed.

Lemma init_ok (tree : tree_dict) :
  forall p w,
    init p tree = Return w -> freshly_built w /\ parent w = p.
Proof.
  assert (Leaf : forall p props _name label,
             forallb Field.implemented (values props) = true ->
             freshly_built (TreeNode p [] props _name None label None false)).
  { intros. apply freshly_built_intro; try constructor; simpl;
      try congruence; try constructor. intros combo; discriminate. }
  induction tree as [name properties|name properties infos IH]
    using tree_induction; intros p w; rewrite init_unfold.
  - destruct name as [_name|]; simpl; [|discriminate].
    destruct properties as [infos|]; simpl.
    + destruct (build_properties infos []) as [props|] eqn:Eprops; simpl;
        [|discriminate].
      intros [= <-]. split; [|reflexivity].
      apply Leaf. now apply (build_properties_ok _ _ _ Eprops).
    + intros [= <-]. split; [|reflexivity]. now apply Leaf.
  - destruct name as [_name|]; simpl; [|discriminate].
    destruct (build_subwidgets _name infos []) as [subs|] eqn:Esubs; simpl;
      [|discriminate].
    destruct (build_subwidgets_ok _name infos IH _ _ Esubs)
      as (Hnd & Hch & Hhd); [constructor | constructor |].
    assert (Hprops : forall props,
               match properties with
               | None => Return []
               | Some properties_dicts => build_properties properties_dicts []
               end = Return props ->
               forallb Field.implemented (values props) = true).
    { intros props. destruct properties as [pinfos|].
      - intros E. now apply (build_properties_ok _ _ _ E).
      - now intros [= <-]. }
    destruct (match properties with
              | None => Return []
              | Some properties_dicts => build_properties properties_dicts []
              end) as [props|]; simpl; [|discriminate].
    specialize (Hprops props eq_refl).
    assert (Hparents : Forall (fun kv => isinstance_AdaptiveTreeNode
                                           (parent (snd kv)) = true) subs).
    { unfold values in Hch. rewrite Forall_map in Hch.
      rewrite Forall_forall in *. intros kv Hkv. now apply Hch. }
    assert (Hoks : Forall freshly_built (values subs)).
    { rewrite Forall_forall in *. intros v Hv. now apply Hch. }
    destruct subs as [|[k0 c0] subs].
    + simpl. intros [= <-]. split; [|reflexivity]. now apply Leaf.
    + cbn [keys map fst truthy Combo.addItems Combo.clear Combo.new items
           current app hd_error Combo.currentText].
      set (combo := {| items := k0 :: map fst subs; current := Some k0 |}).
      set (w0 := set_select_combo _ _).
      destruct (update_subwidgets_spec w0 k0)
        as (Hout & Hp & _ & Hpr & Hcombo & _ & Hsame & Hsel & _).
      destruct (update_subwidgets w0 k0) as [w1 outcome]. simpl in *.
      subst outcome. simpl. intros [= <-]. split; [|exact Hp].
      rewrite String.eqb_refl in Hsel. simpl in Hsel.
      pose proof (same_but_shown_keys _ _ Hsame) as Hkeys. simpl in Hkeys.
      apply freshly_built_intro.
      * constructor.
        -- now rewrite Hkeys.
        -- now rewrite Hpr.
        -- now apply (parents_same_but_shown _ _ Hsame).
        -- intros Hnil. apply (same_but_shown_nil _ _ Hsame) in Hnil.
           discriminate.
        -- intros _. exists k0. rewrite Hsel, Hkeys. simpl. auto.
        -- intros _. exists combo, k0. rewrite Hcombo, Hkeys. simpl. auto.
      * intros combo'. rewrite Hcombo, Hsel. now intros [= <-].
      * unfold default_selected. now rewrite Hsel, Hkeys.
      * apply (same_but_shown_values _ _ _ freshly_built_set_shown Hsame).
        exact Hoks.
Qed.

(** ** Aggregation *)

Lemma comprehension_implemented (fields : list UserField) :
  forallb Field.implemented fields = true ->
  comprehension Field.data fields = Return (map field_value fields).
Proof.
  induction fields as [|f fields IH]; simpl; [reflexivity |].
  intros H. apply andb_true_iff in H as [Hf Hrest]. rewrite (IH Hrest).
  now destruct f.
Qed.

Lemma fields_result (w : AdaptiveTreeNode) :
  forallb Field.implemented (values (_properties_widgets w)) = true ->
  (if truthy (_properties_widgets w) then
     texts <- comprehension Field.data (values (_properties_widgets w)) ;;
     Return (_name w ++ " " ++ str_join ", " texts)
   else Return (_name w))
  = Return (_name w ++ fields_segment w).
Proof.
  intros H. unfold fields_segment.
  destruct (_properties_widgets w) as [|kf fields] eqn:E; simpl truthy; cbv iota.
  - now rewrite str_app_empty_r.
  - now rewrite comprehension_implemented.
Qed.

Lemma truthy_false {A} (l : list A) : truthy l = false <-> l = [].
Proof. destruct l; simpl; split; congruence. Qed.

(** A node whose parent is a tree node aggregates as the specification
    says, whatever was selected and whatever is shown. *)
Lemma data_nonroot (w : AdaptiveTreeNode) :
  tree_ok false w ->
  isinstance_AdaptiveTreeNode (parent w) = true ->
  exists text, data w = Return text /\ Aggregation w text.
Proof.
  induction w as [w IH] using node_induction. intros Hok Hp.
  apply tree_ok_elim in Hok as (Hnode & _ & Hch).
  rewrite data_unfold, Hp, (fields_result w (ok_fields _ Hnode)). simpl bind.
  destruct (truthy (_subwidgets w)) eqn:Et.
  - assert (Hne : _subwidgets w <> []).
    { intros Hnil. rewrite Hnil in Et. discriminate. }
    destruct (ok_selected _ Hnode Hne) as (key & Hsel & Hin).
    rewrite Hsel. unfold child_data.
    destruct (dict_get_In _ _ Hin) as (child & Hget & Hin').
    rewrite Hget.
    assert (Hchild : In child (values (_subwidgets w))).
    { now apply (in_map snd) in Hin'. }
    pose proof (ok_children _ Hnode) as Hparents.
    rewrite Forall_forall in IH, Hch, Hparents.
    destruct (IH child Hchild) as (text & Htext & Hagg).
    + apply Hch. exact Hchild.
    + now apply (Hparents (key, child)).
    + rewrite Htext. simpl. eexists. split; [reflexivity |].
      rewrite str_app_assoc. eapply Aggregation_branch; [exact Hne | | exact Hagg].
      unfold active_child. now rewrite Hsel.
  - apply truthy_false in Et. eexists. split; [reflexivity |].
    now apply Aggregation_leaf.
Qed.

(** The root: the child its selection control names, or an exception when
    there is no control. *)
Lemma data_root (w : AdaptiveTreeNode) :
  tree_ok false w ->
  isinstance_AdaptiveTreeNode (parent w) = false ->
  (_subwidgets w = [] -> data w = Raise (AttributeError "currentText"))
  /\ (_subwidgets w <> [] ->
      exists combo key child text,
        _select_combo w = Some combo /\ current combo = Some key
        /\ dict_get (_subwidgets w) key = Some child
        /\ data w = data child /\ data child = Return text
        /\ Aggregation child text).
Proof.
  intros Hok Hp. apply tree_ok_elim in Hok as (Hnode & _ & Hch).
  rewrite data_unfold, Hp. split.
  - intros Hnil. now rewrite (ok_leaf _ Hnode Hnil).
  - intros Hne.
    destruct (ok_combo _ Hnode Hne) as (combo & key & Hc & Hcur & _ & Hin).
    destruct (dict_get_In _ _ Hin) as (child & Hget & Hin').
    rewrite Hc. unfold child_data, Combo.currentText. rewrite Hcur, Hget.
    apply (in_map snd) in Hin'. simpl in Hin'.
    pose proof (ok_children _ Hnode) as Hparents.
    rewrite Forall_forall in Hch, Hparents.
    destruct (data_nonroot child) as (text & Htext & Hagg).
    + now apply Hch.
    + apply dict_get_Some in Hget. now apply (Hparents (key, child)).
    + exists combo, key, child, text. repeat split; auto.
Qed.


(** ** The keys of a node never change *)

Lemma pick_same_but_shown (text : string) (w : AdaptiveTreeNode) :
  same_but_shown (_subwidgets w) (_subwidgets (pick text w))
  /\ _properties_widgets (pick text w) = _properties_widgets w
  /\ _name (pick text w) = _name w.
Proof.
  unfold pick. destruct (_select_combo w) as [combo|];
    [|repeat split; apply same_but_shown_refl].
  destruct (existsb (String.eqb text) (items combo)
            && negb (String.eqb (Combo.currentText combo) text));
    [|repeat split; apply same_but_shown_refl].
  unfold on_selection_changed.
  destruct (update_subwidgets_spec
              (set_select_combo w (Some (Combo.activate combo text))) text)
    as (_ & _ & Hn & Hpr & _ & _ & Hsame & _).
  repeat split; assumption.
Qed.

Lemma at_path_keys (f : AdaptiveTreeNode -> AdaptiveTreeNode) :
  (forall v, keys (_subwidgets (f v)) = keys (_subwidgets v)) ->
  forall path w,
    keys (_subwidgets (at_path path f w)) = keys (_subwidgets w).
Proof.
  intros Hf [|key path] w; simpl; [apply Hf | apply keys_on_key].
Qed.

Lemma step_keys (w : AdaptiveTreeNode) (e : Event) :
  keys (_subwidgets (step w e)) = keys (_subwidgets w).
Proof.
  destruct e as [path field text|path text|path name]; simpl;
    apply at_path_keys; intros v.
  - reflexivity.
  - apply same_but_shown_keys, pick_same_but_shown.
  - apply same_but_shown_keys. unfold call_update_subwidgets.
    apply update_subwidgets_spec.
Qed.

Lemma run_keys (events : list Event) :
  forall w, keys (_subwidgets (run w events)) = keys (_subwidgets w).
Proof.
  unfold run. induction events as [|e events IH]; simpl; intros w; [reflexivity |].
  now rewrite IH, step_keys.
Qed.

Lemma init_subwidgets_nil (p : QParent) (tree : tree_dict) (w : AdaptiveTreeNode) :
  init p tree = Return w ->
  (_subwidgets w = [] <-> no_subwidgets tree = true).
Proof.
  destruct tree as [name properties subwidgets]. rewrite init_unfold.
  destruct name as [_name|]; simpl; [|discriminate].
  destruct (match subwidgets with
            | None => Return []
            | Some infos => build_subwidgets _name infos []
            end) as [subs|] eqn:Esubs; simpl; [|discriminate].
  assert (Hnil : subs = [] <-> match subwidgets with
                               | None | Some [] => true
                               | Some (_ :: _) => false
                               end = true).
  { destruct subwidgets as [infos|].
    - apply build_subwidgets_nil in Esubs. rewrite Esubs.
      destruct infos; split; try tauto; try discriminate. intros [? _]; discriminate.
    - inversion Esubs. tauto. }
  destruct (match properties with
            | None => Return []
            | Some properties_dicts => build_properties properties_dicts []
            end) as [props|]; simpl; [|discriminate].
  destruct subs as [|[k0 c0] subs].
  - simpl. intros [= <-]. simpl. exact Hnil.
  - cbn [keys map fst truthy].
    match goal with
    | |- context [update_subwidgets ?a ?b] =>
        destruct (update_subwidgets_spec a b)
          as (Hout & _ & _ & _ & _ & _ & Hsame & _);
        destruct (update_subwidgets a b) as [w1 outcome]
    end.
    simpl in Hout. subst outcome. simpl. intros [= <-].
    rewrite (same_but_shown_nil _ _ Hsame). simpl. exact Hnil.
Qed.

Lemma init_inv (p : QParent) (name : option string)
      (properties : option (list property_info))
      (subwidgets : option (list tree_dict)) (w : AdaptiveTreeNode) :
  init p (TreeDict name properties subwidgets) = Return w ->
  exists _name subs,
    name = Some _name
    /\ match subwidgets with
       | None => Return []
       | Some infos => build_subwidgets _name infos []
       end = Return subs
    /\ keys (_subwidgets w) = keys subs.
Proof.
  rewrite init_unfold.
  destruct name as [_name|]; simpl; [|discriminate].
  destruct (match subwidgets with
            | None => Return []
            | Some infos => build_subwidgets _name infos []
            end) as [subs|] eqn:Esubs; simpl; [|discriminate].
  destruct (match properties with
            | None => Return []
            | Some properties_dicts => build_properties properties_dicts []
            end) as [props|]; simpl; [|discriminate].
  intros H. exists _name, subs. split; [reflexivity |]. split; [exact Esubs |].
  destruct (truthy (keys subs)).
  - match type of H with
    | context [update_subwidgets ?a ?b] =>
        destruct (update_subwidgets_spec a b)
          as (Hout & _ & _ & _ & _ & _ & Hsame & _);
        destruct (update_subwidgets a b) as [w1 outcome]
    end.
    simpl in Hout. subst outcome. simpl in H. inversion H; subst.
    now apply same_but_shown_keys in Hsame.
  - now inversion H; subst.
Qed.

Lemma init_selected_first (p : QParent) (name : option string)
      (properties : option (list property_info)) (t : tree_dict)
      (infos : list tree_dict) (w : AdaptiveTreeNode) :
  init p (TreeDict name properties (Some (t :: infos))) = Return w ->
  _selected_widget w = tree_name t /\ tree_name t <> None.
Proof.
  intros H. destruct (init_ok _ _ _ H) as [Hbuilt _].
  apply Everywhere_here in Hbuilt as [_ Hdef]. rewrite Hdef.
  destruct (init_inv _ _ _ _ _ H) as (_name & subs & _ & Hsubs & Hkeys).
  rewrite Hkeys.
  assert (Hall : Forall (fun t' => forall p' w', init p' t' = Return w' ->
                                   freshly_built w' /\ parent w' = p')
                        (t :: infos)).
  { apply Forall_forall. intros t' _ p' w'. apply init_ok. }
  destruct (build_subwidgets_ok _name (t :: infos) Hall [] subs Hsubs)
    as (_ & _ & Hhd); [constructor | constructor |].
  split; [exact Hhd |]. simpl in Hsubs.
  destruct (init (TreeNodeParent _name) t); simpl in Hsubs; [|discriminate].
  now destruct (tree_name t).
Qed.

(** ** Selecting *)

Lemma data_same_but_shown (w w' : AdaptiveTreeNode) :
  parent w' = parent w -> _name w' = _name w ->
  _properties_widgets w' = _properties_widgets w ->
  _select_combo w' = _select_combo w ->
  _selected_widget w' = _selected_widget w ->
  same_but_shown (_subwidgets w) (_subwidgets w') ->
  data w' = data w.
Proof.
  intros Hp Hn Hpr Hc Hs Hsame. rewrite !data_unfold, Hp, Hn, Hpr, Hc, Hs.
  assert (Ht : truthy (_subwidgets w') = truthy (_subwidgets w)).
  { pose proof (same_but_shown_nil _ _ Hsame) as Hnil.
    destruct (_subwidgets w), (_subwidgets w'); simpl; try reflexivity;
      destruct Hnil as [H1 H2]; [now specialize (H2 eq_refl) | now specialize (H1 eq_refl)]. }
  rewrite Ht.
  destruct (isinstance_AdaptiveTreeNode (parent w)).
  - destruct (_selected_widget w) as [key|]; [|reflexivity].
    now rewrite (child_data_same_but_shown w w' key _ Hsame).
  - destruct (_select_combo w) as [combo|]; [|reflexivity].
    apply (child_data_same_but_shown w w' _ _ Hsame).
Qed.

Lemma data_by_selected (w child : AdaptiveTreeNode) (key : string) :
  tree_ok true w ->
  _selected_widget w = Some key ->
  dict_get (_subwidgets w) key = Some child ->
  data w = aggregate_with w (data child).
Proof.
  intros Hok Hsel Hget. apply tree_ok_elim in Hok as (Hnode & Hsync & _).
  assert (Hne : _subwidgets w <> []).
  { intros Hnil. rewrite Hnil in Hget. discriminate. }
  rewrite data_unfold. unfold aggregate_with.
  destruct (isinstance_AdaptiveTreeNode (parent w)).
  - rewrite (fields_result w (ok_fields _ Hnode)). simpl bind.
    destruct (_subwidgets w) eqn:E; [congruence |]. simpl truthy. cbv iota.
    rewrite Hsel. unfold child_data. rewrite E, Hget.
    destruct (data child); simpl; [|reflexivity]. now rewrite str_app_assoc.
  - destruct (ok_combo _ Hnode Hne) as (combo & text & Hc & Hcur & _).
    rewrite Hc. specialize (Hsync eq_refl combo Hc).
    unfold child_data, Combo.currentText.
    rewrite <- Hsync, Hsel, Hget. reflexivity.
Qed.

Lemma pick_selected (text : string) (w : AdaptiveTreeNode) :
  tree_ok true w -> In text (keys (_subwidgets w)) ->
  _selected_widget (pick text w) = Some text.
Proof.
  intros Hok Hin. apply tree_ok_elim in Hok as (Hnode & Hsync & _).
  assert (Hne : _subwidgets w <> []).
  { intros Hnil. rewrite Hnil in Hin. destruct Hin. }
  destruct (ok_combo _ Hnode Hne) as (combo & text' & Hc & Hcur & Hitems & _).
  unfold pick. rewrite Hc, Hitems.
  pose proof Hin as Hex. apply existsb_eqb_In in Hex. rewrite Hex. simpl andb.
  unfold Combo.currentText. rewrite Hcur.
  destruct (String.eqb text' text) eqn:E; simpl.
  - apply String.eqb_eq in E. subst text'.
    now rewrite (Hsync eq_refl combo Hc).
  - unfold on_selection_changed.
    destruct (update_subwidgets_spec
                (set_select_combo w (Some (Combo.activate combo text))) text)
      as (_ & _ & _ & _ & _ & _ & _ & Hsel & _).
    rewrite Hsel. simpl. now rewrite Hex.
Qed.

Lemma pick_parent (text : string) (w : AdaptiveTreeNode) :
  parent (pick text w) = parent w.
Proof.
  unfold pick. destruct (_select_combo w) as [combo|]; [|reflexivity].
  destruct (existsb (String.eqb text) (items combo)
            && negb (String.eqb (Combo.currentText combo) text));
    [|reflexivity].
  unfold on_selection_changed.
  destruct (update_subwidgets_spec
              (set_select_combo w (Some (Combo.activate combo text))) text)
    as (_ & Hp & _).
  exact Hp.
Qed.

Lemma aggregate_with_same (w w' : AdaptiveTreeNode) (child_text : Py string) :
  parent w' = parent w -> _name w' = _name w ->
  _properties_widgets w' = _properties_widgets w ->
  aggregate_with w' child_text = aggregate_with w child_text.
Proof.
  intros Hp Hn Hpr. unfold aggregate_with, fields_segment.
  now rewrite Hp, Hn, Hpr.
Qed.

(** ** No selection touches a field *)





(** ** Loaded trees *)

Lemma loaded_ok (gui : bool) (p : QParent) (tree : tree_dict)
      (root : AdaptiveTreeNode) (events : list Event) :
  init p tree = Return root ->
  (gui = true -> forallb from_gui events = true) ->
  tree_ok gui (run (show root) events)
  /\ parent (run (show root) events) = p.
Proof.
  intros Hinit Hgui. destruct (init_ok _ _ _ Hinit) as [Hbuilt Hp].
  apply freshly_built_tree_ok in Hbuilt.
  apply (tree_ok_set_shown true true) in Hbuilt.
  assert (Hstart : tree_ok gui (show root)).
  { destruct gui; [assumption | now apply tree_ok_weaken]. }
  destruct (run_ok gui events Hgui _ Hstart) as [H1 H2].
  split; [assumption |]. now rewrite H2.
Qed.

Lemma below_root (gui : bool) (path : list string) :
  forall (key : string) (w v : AdaptiveTreeNode),
    tree_ok gui w -> node_at (key :: path) w = Some v ->
    isinstance_AdaptiveTreeNode (parent v) = true.
Proof.
  induction path as [|key' path IH]; intros key w v Hok; simpl;
    destruct (dict_get (_subwidgets w) key) as [child|] eqn:E; try discriminate.
  - intros [= <-]. apply tree_ok_elim in Hok as (Hnode & _).
    pose proof (ok_children _ Hnode) as Hparents.
    rewrite Forall_forall in Hparents. apply dict_get_Some in E.
    now apply (Hparents (key, child)).
  - apply (IH key' child v). eapply Everywhere_child; eassumption.
Qed.

Lemma one_active (w : AdaptiveTreeNode) :
  node_ok w -> _subwidgets w <> [] ->
  length (active_children w) = 1 /\ exists child, active_child w = Some child.
Proof.
  intros Hnode Hne. destruct (ok_selected _ Hnode Hne) as (key & Hsel & Hin).
  unfold active_children, active_child. rewrite Hsel. split.
  - now rewrite (filter_eqb_NoDup key _ (ok_keys _ Hnode) Hin).
  - destruct (dict_get_In _ _ Hin) as (child & Hget & _). eauto.
Qed.

(** ** A schema with an unknown field kind is not built *)

Lemma build_properties_known (infos : list property_info) :
  forall acc d,
    build_properties infos acc = Return d ->
    existsb names_unknown_kind infos = false.
Proof.
  induction infos as [|info infos IH]; intros acc d H; [reflexivity |].
  cbn [build_properties] in H. cbn [existsb]. unfold names_unknown_kind at 1.
  destruct (info_field info) as [kind|]; cbn [entry bind] in H; [|discriminate].
  unfold getitem in H.
  destruct (dict_get SUPPORTED_USER_FIELD_TYPES kind) as [cls|];
    cbn [bind] in H; [|discriminate].
  destruct (info_name info) as [name|]; cbn [entry bind] in H; [|discriminate].
  cbn [orb]. now apply IH in H.
Qed.

Lemma build_subwidgets_known (_name : string) (infos : list tree_dict) :
  Forall (fun t => forall p w, init p t = Return w ->
                               unknown_field_kind t = false) infos ->
  forall acc d,
    build_subwidgets _name infos acc = Return d ->
    (fix any (l : list tree_dict) : bool :=
       match l with
       | [] => false
       | t :: l' => unknown_field_kind t || any l'
       end) infos = false.
Proof.
  induction 1 as [|t infos Ht _ IH]; simpl; intros acc d H; [reflexivity |].
  destruct (init (TreeNodeParent _name) t) as [subwidget|] eqn:Einit;
    simpl in H; [|discriminate].
  destruct (entry "name" (tree_name t)) as [key|]; simpl in H; [|discriminate].
  rewrite (Ht _ _ Einit). simpl. now apply IH in H.
Qed.

Lemma init_known (tree : tree_dict) :
  forall p w, init p tree = Return w -> unknown_field_kind tree = false.
Proof.
  induction tree as [name properties|name properties infos IH]
    using tree_induction; intros p w H;
    destruct (init_inv _ _ _ _ _ H) as (_name & subs & -> & Hsubs & _);
    rewrite init_unfold in H; simpl in H.
  - destruct properties as [pinfos|]; [|reflexivity].
    destruct (build_properties pinfos []) as [props|] eqn:Eprops; simpl in H;
      [|discriminate].
    simpl. rewrite (build_properties_known _ _ _ Eprops). reflexivity.
  - rewrite Hsubs in H. simpl in H.
    cbn [unknown_field_kind].
    rewrite (build_subwidgets_known _name infos IH _ _ Hsubs), orb_false_r.
    destruct properties as [pinfos|]; [|reflexivity].
    destruct (build_properties pinfos []) as [props|] eqn:Eprops; simpl in H;
      [|discriminate].
    apply (build_properties_known _ _ _ Eprops).
Qed.

Lemma unknown_field_kind_raises (p : QParent) (tree : tree_dict) :
  unknown_field_kind tree = true -> exists e, init p tree = Raise e.
Proof.
  intros Hunknown. destruct (init p tree) as [w|e] eqn:E; [|eauto].
  apply init_known in E. congruence.
Qed.

(** ** Scenarios *)

(** One branch with a single-line field holding ["42"]. *)
Example scenario_issue_42 :
  (root <- init WidgetParent
             (TreeDict (Some "form") None
                (Some [TreeDict (Some "Issue")
                         (Some [prop "issue_number" "LineEdit"]) None])) ;;
   data (run (show root) [Typed ["Issue"] "issue_number" "42"]))
  = Return "Issue 42".
Proof. reflexivity. Qed.

(** The user picks "In class" and types two lines. *)
Example scenario_in_class :
  data (run (show issue_root)
            [Picked ["Issue"] "In class";
             Typed ["Issue"; "In class"] "class_names"
                   (String "F" (String "o" (String "o" (String newline "Bar"))))])
  = Return "Issue  In class Foo, Bar".
Proof. reflexivity. Qed.

(** A schema with a field kind the registry lacks: the load fails and the
    form keeps its root. *)
Example scenario_unknown_kind :
  FormSession.load_from_file (fun _ => Return odd_tree)
                             (Form (Some issue_root)) "odd.json"
  = (Form (Some issue_root), Raise (KeyError "DateEdit")).
Proof. reflexivity. Qed.

(** No load yet: the form answers [None]. *)
Example scenario_no_load : FormSession.data FormSession.new = Return None.
Proof. reflexivity. Qed.

(** * The claims *)

(** C1. The root does not follow its active child when
    [update_subwidgets] is called on it: in the tree loaded from [ab_tree]
    the call with ["B"] makes the child "B" the selected widget, the active
    child, whose aggregation is ["B"]; yet the root, which asks its
    selection control, still returns ["A"], and so does the form. *)
Theorem root_reads_combo :
  init WidgetParent ab_tree = Return ab_root
  /\ _subwidgets (run (show ab_root) [Called [] "B"]) <> []
  /\ _selected_widget (run (show ab_root) [Called [] "B"]) = Some "B"
  /\ (exists child,
         active_child (run (show ab_root) [Called [] "B"]) = Some child
         /\ data child = Return "B")
  /\ data (run (show ab_root) [Called [] "B"]) = Return "A"
  /\ FormSession.data (Form (Some (run (show ab_root) [Called [] "B"])))
     = Return (Some "A")
  /\ data (run (show ab_root) [Called [] "B"])
     <> match active_child (run (show ab_root) [Called [] "B"]) with
        | Some child => data child
        | None => Raise (AttributeError "data")
        end.
Proof.
  split; [reflexivity |]. split; [discriminate |]. split; [reflexivity |].
  split; [eexists; split; reflexivity |]. split; [reflexivity |].
  split; [reflexivity | discriminate].
Qed.

(** X14. In a loaded tree whose root has children, as long as every
    selection came through the selection controls (events of the user
    interface), the root's aggregation is exactly that of its active child,
    which is what the form puts out; the root's own name and fields play no
    part in it: replacing them changes nothing. *)
Theorem root_aggregation (tree : tree_dict) (root : AdaptiveTreeNode)
        (events : list Event) :
  init WidgetParent tree = Return root ->
  forallb from_gui events = true ->
  _subwidgets root <> [] ->
  exists child text,
    active_child (run (show root) events) = Some child
    /\ data (run (show root) events) = data child
    /\ data child = Return text
    /\ FormSession.data (Form (Some (run (show root) events)))
       = Return (Some text)
    /\ forall (name : string) (fields : dict UserField),
         data (set_name (set_properties_widgets (run (show root) events) fields)
                        name)
         = data (run (show root) events).
Proof.
  intros Hinit Hgui Hne.
  destruct (loaded_ok true _ _ _ events Hinit (fun _ => Hgui)) as [Hok Hp].
  set (r := run (show root) events) in *.
  assert (Hne' : _subwidgets r <> []).
  { intros Hnil. apply Hne. apply keys_nil.
    apply keys_nil in Hnil. unfold r in Hnil.
    now rewrite run_keys in Hnil. }
  destruct (data_root r (tree_ok_weaken _ Hok)) as [_ Hroot]; [now rewrite Hp |].
  destruct (Hroot Hne') as (combo & key & child & text & Hc & Hcur & Hget & Hd & Ht & _).
  apply tree_ok_elim in Hok as (_ & Hsync & _).
  exists child, text. repeat split.
  - unfold active_child. now rewrite (Hsync eq_refl combo Hc), Hcur.
  - exact Hd.
  - exact Ht.
  - unfold FormSession.data. simpl. now rewrite Hd, Ht.
  - intros name fields. rewrite !data_unfold. simpl. now rewrite Hp.
Qed.

Lemma root_aggregation_witness :
  exists child text,
    active_child
      (run (show issue_root)
           [Typed ["Issue"] "issue_number" "42"; Picked ["Issue"] "In class"])
    = Some child
    /\ data (run (show issue_root)
                 [Typed ["Issue"] "issue_number" "42";
                  Picked ["Issue"] "In class"]) = data child
    /\ data child = Return text
    /\ FormSession.data
         (Form (Some (run (show issue_root)
                          [Typed ["Issue"] "issue_number" "42";
                           Picked ["Issue"] "In class"])))
       = Return (Some text)
    /\ forall (name : string) (fields : dict UserField),
         data (set_name
                 (set_properties_widgets
                    (run (show issue_root)
                         [Typed ["Issue"] "issue_number" "42";
                          Picked ["Issue"] "In class"]) fields) name)
         = data (run (show issue_root)
                     [Typed ["Issue"] "issue_number" "42";
                      Picked ["Issue"] "In class"]).
Proof.
  apply (root_aggregation issue_tree issue_root);
    [reflexivity | reflexivity | discriminate].
Defined.

(** C2. Every node below the root of a loaded tree aggregates to its name,
    then a space and its field values joined with [", "] in the order of the
    fields when it has fields, then a space and the aggregation of its
    active child when it has children; with neither, to its name alone. *)
Theorem nonroot_aggregation (tree : tree_dict) (root : AdaptiveTreeNode)
        (events : list Event) (path : list string) (w : AdaptiveTreeNode) :
  init WidgetParent tree = Return root ->
  node_at path (run (show root) events) = Some w ->
  path <> [] ->
  isinstance_AdaptiveTreeNode (parent w) = true
  /\ exists text,
       data w = Return text
       /\ Aggregation w text
       /\ (_subwidgets w = [] -> text = _name w ++ fields_segment w)
       /\ (_properties_widgets w = [] -> _subwidgets w = [] -> text = _name w).
Proof.
  intros Hinit Hat Hpath.
  destruct (loaded_ok false _ _ _ events Hinit) as [Hok _]; [discriminate |].
  assert (Hp : isinstance_AdaptiveTreeNode (parent w) = true).
  { destruct path as [|key path]; [congruence |].
    eapply below_root; eassumption. }
  split; [exact Hp |].
  destruct (data_nonroot w) as (text & Ht & Hagg);
    [eapply Everywhere_node_at; eassumption | exact Hp |].
  exists text. repeat split; try assumption.
  - intros Hnil. inversion Hagg; subst; [reflexivity | congruence].
  - intros Hprops Hnil. inversion Hagg; subst; [|congruence].
    unfold fields_segment. rewrite Hprops. apply str_app_empty_r.
Qed.

Lemma nonroot_aggregation_witness :
  node_at ["Issue"; "In class"]
          (run (show issue_root) [Picked ["Issue"] "In class"])
  = Some in_class_node
  /\ isinstance_AdaptiveTreeNode (parent in_class_node) = true
  /\ exists text,
       data in_class_node = Return text
       /\ Aggregation in_class_node text
       /\ (_subwidgets in_class_node = [] ->
           text = _name in_class_node ++ fields_segment in_class_node)
       /\ (_properties_widgets in_class_node = [] ->
           _subwidgets in_class_node = [] -> text = _name in_class_node).
Proof.
  split; [reflexivity |].
  apply (nonroot_aggregation issue_tree issue_root
           [Picked ["Issue"] "In class"] ["Issue"; "In class"]);
    [reflexivity | reflexivity | discriminate].
Defined.

(** C3. At every node with children exactly one child is active.
    Construction selects the first key of the children (the name of the
    first fragment listed), and the events that follow, calls of
    [update_subwidgets] with names that are no keys included, leave exactly
    one child active. *)
Theorem one_active_child (p : QParent) (tree : tree_dict)
        (root : AdaptiveTreeNode) :
  init p tree = Return root ->
  (forall path w,
      node_at path root = Some w -> _subwidgets w <> [] ->
      _selected_widget w = hd_error (keys (_subwidgets w))
      /\ length (active_children w) = 1)
  /\ (forall name properties t infos,
         tree = TreeDict name properties (Some (t :: infos)) ->
         _selected_widget root = tree_name t
         /\ hd_error (keys (_subwidgets root)) = tree_name t)
  /\ (forall events path w,
         node_at path (run (show root) events) = Some w ->
         _subwidgets w <> [] ->
         length (active_children w) = 1
         /\ exists child, active_child w = Some child).
Proof.
  intros Hinit. split; [|split].
  - intros path w Hat Hne. destruct (init_ok _ _ _ Hinit) as [Hbuilt _].
    apply (Everywhere_node_at _ path root w Hbuilt) in Hat.
    apply Everywhere_here in Hat as [[Hnode _] Hdef].
    split; [exact Hdef | now apply one_active].
  - intros name properties t infos ->.
    destruct (init_selected_first _ _ _ _ _ _ Hinit) as [Hsel _].
    split; [exact Hsel |].
    destruct (init_ok _ _ _ Hinit) as [Hbuilt _].
    apply Everywhere_here in Hbuilt as [_ Hdef]. congruence.
  - intros events path w Hat Hne.
    destruct (loaded_ok false _ _ _ events Hinit) as [Hok _]; [discriminate |].
    apply (Everywhere_node_at _ path _ w Hok) in Hat.
    apply Everywhere_here in Hat as [Hnode _]. now apply one_active.
Qed.

Lemma one_active_child_witness :
  length (active_children
            (run (show issue_root)
                 [Picked ["Issue"] "In class"; Called ["Issue"] "DoesNotExist"]))
  = 1
  /\ exists child,
       active_child
         (run (show issue_root)
              [Picked ["Issue"] "In class"; Called ["Issue"] "DoesNotExist"])
       = Some child.
Proof.
  refine (proj2 (proj2 (one_active_child WidgetParent issue_tree issue_root
                                         eq_refl)) _ [] _ eq_refl _).
  discriminate.
Defined.

(** C4, the claim as stated fails: called with a name that is no key,
    [update_subwidgets] returns normally; it raises nothing. *)
Lemma update_subwidgets_unknown_returns :
  init WidgetParent issue_tree = Return issue_root
  /\ ~ In "DoesNotExist" (keys (_subwidgets issue_root))
  /\ snd (update_subwidgets issue_root "DoesNotExist") = Return tt
  /\ ~ (exists e, snd (update_subwidgets issue_root "DoesNotExist") = Raise e).
Proof.
  split; [reflexivity |]. split; [|split].
  - simpl. intros [H | []]. discriminate.
  - reflexivity.
  - intros [e H]. discriminate.
Qed.

(** C4, amended. Called with a name that is no key of the children,
    [update_subwidgets] returns normally, without an error; the selected
    widget, the active children and the aggregation are what they were, and
    every child is left hidden. *)
Theorem update_subwidgets_unknown (w : AdaptiveTreeNode) (name : string) :
  ~ In name (keys (_subwidgets w)) ->
  snd (update_subwidgets w name) = Return tt
  /\ _selected_widget (fst (update_subwidgets w name)) = _selected_widget w
  /\ active_children (fst (update_subwidgets w name)) = active_children w
  /\ data (fst (update_subwidgets w name)) = data w
  /\ Forall (fun kv => shown (snd kv) = false)
            (_subwidgets (fst (update_subwidgets w name))).
Proof.
  intros Hnin.
  destruct (update_subwidgets_spec w name)
    as (Hout & Hp & Hn & Hpr & Hc & _ & Hsame & Hsel & Hshown).
  apply existsb_eqb_not_In in Hnin as Hex. rewrite Hex in Hsel.
  pose proof (same_but_shown_keys _ _ Hsame) as Hkeys.
  repeat split.
  - exact Hout.
  - exact Hsel.
  - unfold active_children. now rewrite Hsel, Hkeys.
  - now apply data_same_but_shown.
  - rewrite Forall_forall in *. intros kv Hkv. rewrite (Hshown kv Hkv).
    apply String.eqb_neq. intros E. apply Hnin. rewrite <- Hkeys.
    apply (in_map fst) in Hkv. now rewrite E in Hkv.
Qed.

Lemma update_subwidgets_unknown_witness :
  snd (update_subwidgets issue_root "DoesNotExist") = Return tt
  /\ _selected_widget (fst (update_subwidgets issue_root "DoesNotExist"))
     = _selected_widget issue_root
  /\ active_children (fst (update_subwidgets issue_root "DoesNotExist"))
     = active_children issue_root
  /\ data (fst (update_subwidgets issue_root "DoesNotExist")) = data issue_root
  /\ Forall (fun kv => shown (snd kv) = false)
            (_subwidgets (fst (update_subwidgets issue_root "DoesNotExist"))).
Proof.
  apply (update_subwidgets_unknown issue_root "DoesNotExist").
  simpl. intros [H | []]. discriminate.
Defined.

(** C5. A load that fails changes nothing: whatever the exception, it
    reaches the caller and the form keeps the root it had, or none, so that
    its output is what it was.  A file that cannot be read or parsed makes
    the load fail, and so does a schema in which some property names a field
    kind the registry lacks. *)
Theorem load_is_atomic (json_load_open : string -> Py tree_dict)
        (self : AdaptiveTreeForm) (file_name : string) :
  (forall self' e,
      FormSession.load_from_file json_load_open self file_name = (self', Raise e) ->
      self' = self /\ FormSession.data self' = FormSession.data self)
  /\ (forall e,
         json_load_open file_name = Raise e ->
         FormSession.load_from_file json_load_open self file_name
         = (self, Raise e))
  /\ (forall tree,
         json_load_open file_name = Return tree ->
         unknown_field_kind tree = true ->
         exists e,
           FormSession.load_from_file json_load_open self file_name
           = (self, Raise e)).
Proof.
  unfold FormSession.load_from_file. split; [|split].
  - intros self' e.
    destruct (json_load_open file_name) as [tree|e'].
    + destruct (init WidgetParent tree); intros [= <-]; auto.
    + intros [= <-]; auto.
  - intros e ->. reflexivity.
  - intros tree -> Hunknown.
    destruct (unknown_field_kind_raises WidgetParent tree Hunknown) as [e ->].
    eauto.
Qed.





(** C10. A root built from a schema that lists no children has no selection
    control: asking it, or the form, for the aggregated output raises
    [AttributeError], whatever events came before.  With children listed the
    output is a string. *)
Theorem root_without_children (tree : tree_dict) (root : AdaptiveTreeNode)
        (events : list Event) :
  init WidgetParent tree = Return root ->
  (_subwidgets root = [] <-> no_subwidgets tree = true)
  /\ (no_subwidgets tree = true ->
      _select_combo (run (show root) events) = None
      /\ data (run (show root) events) = Raise (AttributeError "currentText")
      /\ FormSession.data (Form (Some (run (show root) events)))
         = Raise (AttributeError "currentText"))
  /\ (no_subwidgets tree = false ->
      exists text,
        data (run (show root) events) = Return text
        /\ FormSession.data (Form (Some (run (show root) events)))
           = Return (Some text)).
Proof.
  intros Hinit.
  pose proof (init_subwidgets_nil _ _ _ Hinit) as Hnil.
  destruct (loaded_ok false _ _ _ events Hinit) as [Hok Hp]; [discriminate |].
  set (r := run (show root) events) in *.
  assert (Hnil' : _subwidgets r = [] <-> _subwidgets root = []).
  { rewrite <- !keys_nil. unfold r. now rewrite run_keys. }
  destruct (data_root r Hok) as [Hempty Hfull]; [now rewrite Hp |].
  split; [exact Hnil |]. split.
  - intros Hno. apply Hnil, Hnil' in Hno.
    apply tree_ok_elim in Hok as (Hnode & _).
    split; [exact (ok_leaf _ Hnode Hno) |].
    unfold FormSession.data. simpl. now rewrite (Hempty Hno).
  - intros Hsome.
    assert (Hne : _subwidgets r <> []).
    { rewrite Hnil', Hnil. congruence. }
    destruct (Hfull Hne) as (_ & _ & child & text & _ & _ & _ & Hd & Ht & _).
    exists text. unfold FormSession.data. simpl. rewrite Hd, Ht. auto.
Qed.

Lemma root_without_children_witness :
  data (run (show (TreeNode WidgetParent []
                            [("note", LineEditField "note" "")]
                            "form" None None None false))
            [Typed [] "note" "hello"])
  = Raise (AttributeError "currentText").
Proof.
  refine (proj1 (proj2 (proj1 (proj2
           (root_without_children bare_tree _ [Typed [] "note" "hello"]
                                  eq_refl)) eq_refl))).
Defined.

(** * Further properties *)

(** ** When construction succeeds *)

Lemma build_properties_cases (infos : list property_info) :
  forall acc,
    match build_properties infos acc with
    | Return _ => forallb property_ok infos = true
    | Raise e => forallb property_ok infos = false /\ exists key, e = KeyError key
    end.
Proof.
  induction infos as [|info infos IH]; intros acc; [reflexivity |].
  cbn [build_properties forallb]. unfold property_ok at 1 3, getitem.
  destruct (info_field info) as [kind|]; cbn [entry bind]; [|eauto].
  destruct (dict_get SUPPORTED_USER_FIELD_TYPES kind) as [cls|];
    cbn [bind]; [|destruct (info_name info); eauto].
  destruct (info_name info) as [name|]; cbn [entry bind andb]; [|eauto].
  apply IH.
Qed.

Lemma build_subwidgets_cases (_name : string) (infos : list tree_dict) :
  Forall (fun t => forall p,
              match init p t with
              | Return _ => schema_ok t = true
              | Raise e => schema_ok t = false /\ exists key, e = KeyError key
              end) infos ->
  forall acc,
    match build_subwidgets _name infos acc with
    | Return _ =>
        (fix all (l : list tree_dict) : bool :=
           match l with
           | [] => true
           | t :: l' => schema_ok t && all l'
           end) infos = true
    | Raise e =>
        (fix all (l : list tree_dict) : bool :=
           match l with
           | [] => true
           | t :: l' => schema_ok t && all l'
           end) infos = false
        /\ exists key, e = KeyError key
    end.
Proof.
  induction 1 as [|t infos Ht _ IH]; intros acc; [reflexivity |].
  cbn [build_subwidgets]. specialize (Ht (TreeNodeParent _name)).
  destruct (init (TreeNodeParent _name) t) as [subwidget|e] eqn:Einit;
    cbn [bind].
  - rewrite Ht. cbn [andb].
    destruct t as [name properties subwidgets].
    destruct (init_inv _ _ _ _ _ Einit) as (n & _ & -> & _).
    cbn [tree_name entry bind]. apply IH.
  - destruct Ht as [-> Hkey]. split; [reflexivity | exact Hkey].
Qed.

Lemma init_cases (tree : tree_dict) :
  forall p,
    match init p tree with
    | Return _ => schema_ok tree = true
    | Raise e => schema_ok tree = false /\ exists key, e = KeyError key
    end.
Proof.
  assert (Tail : forall p subs props _name,
             exists w,
               (let self :=
                  TreeNode p subs props _name None
                           (match p with
                            | TreeNodeParent parent_name =>
                                Some (_name ++ " " ++ parent_name)
                            | _ => None
                            end) None false in
                if truthy (keys subs) then
                  let _select_combo :=
                    Combo.addItems (Combo.clear Combo.new) (keys subs) in
                  let self := set_select_combo self (Some _select_combo) in
                  let (self, outcome) :=
                    update_subwidgets self (Combo.currentText _select_combo) in
                  _ <- outcome ;; Return self
                else Return self) = Return w).
  { intros p subs props _name. cbv zeta. destruct (truthy (keys subs)); [|eauto].
    match goal with
    | |- context [update_subwidgets ?a ?b] =>
        destruct (update_subwidgets_spec a b) as (Hout & _);
        destruct (update_subwidgets a b) as [w1 outcome]
    end.
    simpl in Hout. subst outcome. simpl. eauto. }
  induction tree as [name properties|name properties infos IH]
    using tree_induction; intros p; rewrite init_unfold; cbn [schema_ok].
  - destruct name as [_name|]; cbn [entry bind andb]; [|eauto].
    destruct properties as [pinfos|]; cbn [bind].
    + pose proof (build_properties_cases pinfos []) as Hp.
      destruct (build_properties pinfos []) as [props|e]; cbn [bind].
      * destruct (Tail p [] props _name) as [w Hw].
        match goal with
        | |- match ?X with Return _ => _ | Raise _ => _ end =>
            replace X with (Return w) by (symmetry; exact Hw)
        end.
        now rewrite Hp.
      * destruct Hp as [-> Hkey]. split; [reflexivity | exact Hkey].
    + destruct (Tail p [] [] _name) as [w Hw].
      match goal with
      | |- match ?X with Return _ => _ | Raise _ => _ end =>
          replace X with (Return w) by (symmetry; exact Hw)
      end.
      reflexivity.
  - destruct name as [_name|]; cbn [entry bind andb]; [|eauto].
    pose proof (build_subwidgets_cases _name infos IH []) as Hs.
    destruct (build_subwidgets _name infos []) as [subs|e]; cbn [bind].
    + rewrite Hs, andb_true_r.
      destruct properties as [pinfos|]; cbn [bind].
      * pose proof (build_properties_cases pinfos []) as Hp.
        destruct (build_properties pinfos []) as [props|e]; cbn [bind].
        -- destruct (Tail p subs props _name) as [w Hw].
           match goal with
           | |- match ?X with Return _ => _ | Raise _ => _ end =>
               replace X with (Return w) by (symmetry; exact Hw)
           end.
           exact Hp.
        -- exact Hp.
      * destruct (Tail p subs [] _name) as [w Hw].
        match goal with
        | |- match ?X with Return _ => _ | Raise _ => _ end =>
            replace X with (Return w) by (symmetry; exact Hw)
        end.
        reflexivity.
    + destruct Hs as [-> Hkey]. split; [apply andb_false_r | exact Hkey].
Qed.

(** X1. On a schema whose entries have the JSON types the constructor
    expects (string names and field kinds, lists of fragments and of
    properties: what [tree_dict] holds), the constructor succeeds exactly
    when every fragment has a name and every property a name and a
    registered field kind; when it fails on such a schema, it is with a
    [KeyError]. *)
Theorem init_succeeds_iff (p : QParent) (tree : tree_dict) :
  ((exists w, init p tree = Return w) <-> schema_ok tree = true)
  /\ (forall e, init p tree = Raise e -> exists key, e = KeyError key).
Proof.
  pose proof (init_cases tree p) as H.
  destruct (init p tree) as [w|e]; split.
  - split; [intros _; exact H | eauto].
  - discriminate.
  - destruct H as [H _]. split; [intros [w Hw]; discriminate | congruence].
  - intros e' [= <-]. apply H.
Qed.

(** ** Names used twice *)

Lemma dict_get_dict_set {V} (d : dict V) (k : string) (v : V) (k' : string) :
  dict_get (dict_set d k v) k'
  = if String.eqb k k' then Some v else dict_get d k'.
Proof.
  induction d as [|[k0 v0] d IH]; simpl; [reflexivity |].
  destruct (String.eqb k0 k) eqn:E0; simpl.
  - apply String.eqb_eq in E0. subst k0.
    now destruct (String.eqb k k').
  - rewrite IH. destruct (String.eqb k0 k') eqn:E1; [|reflexivity].
    apply String.eqb_eq in E1. subst k0. now rewrite String.eqb_sym, E0.
Qed.

Lemma length_dict_set {V} (d : dict V) (k : string) (v : V) :
  length (dict_set d k v) <= S (length d).
Proof.
  induction d as [|[k0 v0] d IH]; simpl; [lia |].
  destruct (String.eqb k0 k); simpl; lia.
Qed.

Lemma find_last_None {A} (test : A -> bool) (l : list A) :
  find_last test l = None <-> forall x, In x l -> test x = false.
Proof.
  induction l as [|x l IH]; simpl; [tauto |].
  destruct (find_last test l) as [y|].
  - split; [discriminate |]. intros H. apply IH. auto.
  - destruct (test x) eqn:E; split; try discriminate.
    + intros H. specialize (H x (or_introl eq_refl)). congruence.
    + intros _ y [<- | Hy]; [assumption | now apply IH].
    + reflexivity.
Qed.

Lemma find_last_Some {A} (test : A -> bool) (l : list A) (x : A) :
  find_last test l = Some x -> In x l /\ test x = true.
Proof.
  induction l as [|y l IH]; simpl; [discriminate |].
  destruct (find_last test l) as [z|].
  - intros [= ->]. destruct (IH eq_refl). auto.
  - destruct (test y) eqn:E; [|discriminate]. intros [= <-]. auto.
Qed.

Lemma build_properties_lookup (infos : list property_info) :
  forall acc d,
    build_properties infos acc = Return d ->
    (forall key,
        dict_get d key
        = match find_last (property_named key) infos with
          | Some info => field_of info
          | None => dict_get acc key
          end)
    /\ length d <= length acc + length infos
    /\ (NoDup (keys acc) -> NoDup (keys d)).
Proof.
  induction infos as [|info infos IH]; intros acc d H.
  - inversion H; subst. simpl. repeat split; auto. lia.
  - cbn [build_properties] in H. unfold getitem in H.
    destruct (info_field info) as [kind|] eqn:Ekind; cbn [entry bind] in H;
      [|discriminate].
    destruct (dict_get SUPPORTED_USER_FIELD_TYPES kind) as [cls|] eqn:Ecls;
      cbn [bind] in H; [|discriminate].
    destruct (info_name info) as [name|] eqn:Ename; cbn [entry bind] in H;
      [|discriminate].
    destruct (IH _ _ H) as (Hget & Hlen & Hnd). split; [|split].
    + intros key. rewrite Hget. cbn [find_last].
      destruct (find_last (property_named key) infos); [reflexivity |].
      rewrite dict_get_dict_set. unfold property_named. rewrite Ename.
      destruct (String.eqb name key) eqn:E; [|reflexivity].
      apply String.eqb_eq in E. subst key. unfold field_of.
      now rewrite Ename, Ekind, Ecls.
    + pose proof (length_dict_set acc name (construct cls name)).
      simpl. lia.
    + intros Hacc. apply Hnd. now apply NoDup_keys_dict_set.
Qed.

Lemma build_subwidgets_lookup (_name : string) (infos : list tree_dict) :
  forall acc d,
    build_subwidgets _name infos acc = Return d ->
    (forall key,
        match find_last (fragment_named key) infos with
        | Some t =>
            exists child, init (TreeNodeParent _name) t = Return child
                          /\ dict_get d key = Some child
        | None => dict_get d key = dict_get acc key
        end)
    /\ length d <= length acc + length infos.
Proof.
  induction infos as [|t infos IH]; intros acc d H.
  - inversion H; subst. simpl. split; [reflexivity | lia].
  - cbn [build_subwidgets] in H.
    destruct (init (TreeNodeParent _name) t) as [subwidget|] eqn:Einit;
      cbn [bind] in H; [|discriminate].
    destruct (tree_name t) as [name|] eqn:Ename; cbn [entry bind] in H;
      [|discriminate].
    destruct (IH _ _ H) as [Hget Hlen]. split.
    + intros key. specialize (Hget key). cbn [find_last].
      destruct (find_last (fragment_named key) infos); [exact Hget |].
      rewrite dict_get_dict_set in Hget. unfold fragment_named. rewrite Ename.
      destruct (String.eqb name key); [eauto | exact Hget].
    + pose proof (length_dict_set acc name subwidget). simpl. lia.
Qed.

Lemma init_properties (p : QParent) (name : option string)
      (properties : option (list property_info))
      (subwidgets : option (list tree_dict)) (w : AdaptiveTreeNode) :
  init p (TreeDict name properties subwidgets) = Return w ->
  match properties with
  | Some infos => build_properties infos []
  | None => Return []
  end = Return (_properties_widgets w).
Proof.
  rewrite init_unfold.
  destruct name as [_name|]; simpl; [|discriminate].
  destruct (match subwidgets with
            | None => Return []
            | Some infos => build_subwidgets _name infos []
            end) as [subs|]; simpl; [|discriminate].
  destruct (match properties with
            | None => Return []
            | Some properties_dicts => build_properties properties_dicts []
            end) as [props|] eqn:Eprops; simpl; [|discriminate].
  intros H. destruct (truthy (keys subs)).
  - match type of H with
    | context [update_subwidgets ?a ?b] =>
        destruct (update_subwidgets_spec a b) as (Hout & _ & _ & Hpr & _);
        destruct (update_subwidgets a b) as [w1 outcome]
    end.
    simpl in Hout. subst outcome. simpl in H. inversion H; subst.
    simpl in Hpr. now rewrite Hpr.
  - now inversion H; subst.
Qed.

Lemma init_subwidgets (p : QParent) (_name : string)
      (properties : option (list property_info))
      (infos : list tree_dict) (w : AdaptiveTreeNode) :
  init p (TreeDict (Some _name) properties (Some infos)) = Return w ->
  exists subs,
    build_subwidgets _name infos [] = Return subs
    /\ same_but_shown subs (_subwidgets w).
Proof.
  rewrite init_unfold. simpl.
  destruct (build_subwidgets _name infos []) as [subs|]; simpl; [|discriminate].
  destruct (match properties with
            | None => Return []
            | Some properties_dicts => build_properties properties_dicts []
            end) as [props|]; simpl; [|discriminate].
  intros H. exists subs. split; [reflexivity |].
  destruct (truthy (keys subs)).
  - match type of H with
    | context [update_subwidgets ?a ?b] =>
        destruct (update_subwidgets_spec a b)
          as (Hout & _ & _ & _ & _ & _ & Hsame & _);
        destruct (update_subwidgets a b) as [w1 outcome]
    end.
    simpl in Hout. subst outcome. simpl in H. inversion H; subst. exact Hsame.
  - inversion H; subst. apply same_but_shown_refl.
Qed.

(** X2. When several fragments of a [subwidgets] list bear the same name,
    one child is kept under that name, built from the last of them; the
    earlier ones are not reachable.  The keys are pairwise distinct, are
    the names that occur, and are at most as many as the fragments. *)
Theorem duplicate_subwidgets_last_wins
        (p : QParent) (_name : string)
        (properties : option (list property_info))
        (infos : list tree_dict) (w : AdaptiveTreeNode) :
  init p (TreeDict (Some _name) properties (Some infos)) = Return w ->
  (forall key,
      match find_last (fragment_named key) infos with
      | Some t =>
          exists child b,
            init (TreeNodeParent _name) t = Return child
            /\ dict_get (_subwidgets w) key = Some (set_shown b child)
      | None => dict_get (_subwidgets w) key = None
      end)
  /\ NoDup (keys (_subwidgets w))
  /\ (forall key, In key (keys (_subwidgets w))
                  <-> In (Some key) (map tree_name infos))
  /\ length (_subwidgets w) <= length infos.
Proof.
  intros Hinit.
  destruct (init_subwidgets _ _ _ _ _ Hinit) as (subs & Hsubs & Hsame).
  destruct (build_subwidgets_lookup _ _ _ _ Hsubs) as [Hget Hlen].
  assert (Hlookup : forall key,
             match find_last (fragment_named key) infos with
             | Some t =>
                 exists child b,
                   init (TreeNodeParent _name) t = Return child
                   /\ dict_get (_subwidgets w) key = Some (set_shown b child)
             | None => dict_get (_subwidgets w) key = None
             end).
  { intros key. specialize (Hget key).
    pose proof (same_but_shown_get _ _ key Hsame) as Hs.
    destruct (find_last (fragment_named key) infos) as [t|].
    - destruct Hget as (child & Hchild & Hd). rewrite Hd in Hs.
      destruct (dict_get (_subwidgets w) key) as [c|]; [|destruct Hs].
      destruct Hs as (b & ->). eauto.
    - simpl in Hget. rewrite Hget in Hs.
      now destruct (dict_get (_subwidgets w) key). }
  split; [exact Hlookup |]. split; [|split].
  - destruct (init_ok _ _ _ Hinit) as [Hbuilt _].
    apply Everywhere_here in Hbuilt as [[Hnode _] _]. apply Hnode.
  - intros key. specialize (Hlookup key). split.
    + intros Hin. destruct (dict_get_In _ _ Hin) as (c & Hc & _).
      destruct (find_last (fragment_named key) infos) as [t|] eqn:E;
        [|congruence].
      apply find_last_Some in E as [Ht Hnamed]. unfold fragment_named in Hnamed.
      destruct (tree_name t) as [n|] eqn:En; [|discriminate].
      apply String.eqb_eq in Hnamed. subst n. rewrite <- En. now apply in_map.
    + intros Hin. apply in_map_iff in Hin as (t & Hname & Ht).
      destruct (find_last (fragment_named key) infos) as [t'|] eqn:E.
      * destruct Hlookup as (child & b & _ & Hd).
        apply dict_get_Some in Hd. now apply (in_map fst) in Hd.
      * rewrite find_last_None in E. specialize (E t Ht).
        unfold fragment_named in E. rewrite Hname, String.eqb_refl in E.
        discriminate.
  - apply Forall2_length in Hsame. rewrite <- Hsame. simpl in Hlen. lia.
Qed.

Lemma duplicate_subwidgets_last_wins_witness :
  keys (_subwidgets twice_root) = ["A"; "B"]
  /\ match find_last (fragment_named "A")
                     [ TreeDict (Some "A") (Some [ prop "first" "LineEdit" ]) None;
                       TreeDict (Some "B") None None;
                       TreeDict (Some "A") None None ] with
     | Some t =>
         exists child b,
           init (TreeNodeParent "form") t = Return child
           /\ dict_get (_subwidgets twice_root) "A" = Some (set_shown b child)
     | None => dict_get (_subwidgets twice_root) "A" = None
     end.
Proof.
  split; [reflexivity |].
  exact (proj1 (duplicate_subwidgets_last_wins
                  WidgetParent "form" None
                  [ TreeDict (Some "A") (Some [ prop "first" "LineEdit" ]) None;
                    TreeDict (Some "B") None None;
                    TreeDict (Some "A") None None ]
                  twice_root eq_refl) "A").
Defined.

(** X3. When several properties of a node bear the same name, one field is
    kept under that name, of the kind the last of them asks for; the keys
    of the fields are pairwise distinct and at most as many as the
    properties. *)
Theorem duplicate_properties_last_wins
        (p : QParent) (name : option string) (infos : list property_info)
        (subwidgets : option (list tree_dict)) (w : AdaptiveTreeNode) :
  init p (TreeDict name (Some infos) subwidgets) = Return w ->
  (forall key,
      dict_get (_properties_widgets w) key
      = match find_last (property_named key) infos with
        | Some info => field_of info
        | None => None
        end)
  /\ NoDup (keys (_properties_widgets w))
  /\ length (_properties_widgets w) <= length infos.
Proof.
  intros Hinit. apply init_properties in Hinit.
  destruct (build_properties_lookup _ _ _ Hinit) as (Hget & Hlen & Hnd).
  split; [exact Hget |]. split; [apply Hnd; constructor | exact Hlen].
Qed.

Lemma duplicate_properties_last_wins_witness :
  dict_get [("a", MultipleTextEdit "a" ""); ("b", LineEditField "b" "")] "a"
  = match find_last (property_named "a")
                    [prop "a" "LineEdit"; prop "b" "LineEdit";
                     prop "a" "MultipleFilesEdit"] with
    | Some info => field_of info
    | None => None
    end.
Proof.
  exact (proj1 (duplicate_properties_last_wins
                  WidgetParent (Some "n")
                  [prop "a" "LineEdit"; prop "b" "LineEdit";
                   prop "a" "MultipleFilesEdit"]
                  None
                  (TreeNode WidgetParent []
                            [("a", MultipleTextEdit "a" "");
                             ("b", LineEditField "b" "")]
                            "n" None None None false)
                  eq_refl) "a").
Defined.

(** ** Selecting a child that exists *)

Lemma update_loop_map (its : dict AdaptiveTreeNode) (name : string) :
  forall selected,
    fst (update_loop its name selected)
    = map (fun kv => (fst kv, set_shown (String.eqb (fst kv) name) (snd kv))) its.
Proof.
  induction its as [|[k c] its IH]; intros selected; simpl; [reflexivity |].
  destruct (String.eqb k name).
  - specialize (IH (Some k)).
    destruct (update_loop its name (Some k)) as [rest' selected'].
    simpl in *. now rewrite IH.
  - specialize (IH selected).
    destruct (update_loop its name selected) as [rest' selected'].
    simpl in *. now rewrite IH.
Qed.

Lemma update_subwidgets_eq (w : AdaptiveTreeNode) (name : string) :
  fst (update_subwidgets w name)
  = set_selected_widget
      (set_subwidgets
         w (map (fun kv => (fst kv, set_shown (String.eqb (fst kv) name) (snd kv)))
                (_subwidgets w)))
      (if existsb (String.eqb name) (keys (_subwidgets w)) then Some name
       else _selected_widget w).
Proof.
  unfold update_subwidgets.
  pose proof (update_loop_map (_subwidgets w) name (_selected_widget w)) as Hmap.
  destruct (update_loop_spec (_subwidgets w) name (_selected_widget w))
    as (_ & Hsel & _).
  destruct (update_loop (_subwidgets w) name (_selected_widget w))
    as [subwidgets' selected']. simpl in *. now rewrite Hmap, Hsel.
Qed.

Lemma keys_shown_map (name : string) (its : dict AdaptiveTreeNode) :
  keys (filter (fun kv => shown (snd kv))
               (map (fun kv => (fst kv,
                                set_shown (String.eqb (fst kv) name) (snd kv)))
                    its))
  = filter (fun k => String.eqb k name) (keys its).
Proof.
  induction its as [|[k c] its IH]; simpl; [reflexivity |].
  destruct (String.eqb k name); simpl; now rewrite IH.
Qed.

Lemma keys_map_snd {V} (g : string * V -> V) (d : dict V) :
  keys (map (fun kv => (fst kv, g kv)) d) = keys d.
Proof. unfold keys. rewrite map_map. reflexivity. Qed.

(** X4. Called with a key of the children, [update_subwidgets] makes the
    child under that key the selected one and the only one shown.  Calling
    it again with the same key changes nothing more, and whatever was
    selected by an earlier call is forgotten. *)
Theorem update_subwidgets_known (w : AdaptiveTreeNode) (name : string) :
  In name (keys (_subwidgets w)) ->
  NoDup (keys (_subwidgets w)) ->
  _selected_widget (fst (update_subwidgets w name)) = Some name
  /\ shown_children (fst (update_subwidgets w name)) = [name]
  /\ active_children (fst (update_subwidgets w name)) = [name]
  /\ snd (update_subwidgets w name) = Return tt
  /\ fst (update_subwidgets (fst (update_subwidgets w name)) name)
     = fst (update_subwidgets w name)
  /\ (forall other,
         fst (update_subwidgets (fst (update_subwidgets w other)) name)
         = fst (update_subwidgets w name)).
Proof.
  intros Hin Hnd. pose proof Hin as Hex. apply existsb_eqb_In in Hex.
  assert (Hagain : forall other,
             fst (update_subwidgets (fst (update_subwidgets w other)) name)
             = fst (update_subwidgets w name)).
  { intros other. rewrite (update_subwidgets_eq _ name).
    rewrite (update_subwidgets_eq w other), (update_subwidgets_eq w name).
    destruct w as [p subs props n combo label sel vis]. simpl in *.
    rewrite keys_map_snd with (g := fun kv => set_shown (fst kv =? other) (snd kv)).
    rewrite Hex, map_map. reflexivity. }
  split; [|split; [|split; [|split; [|split]]]].
  - rewrite update_subwidgets_eq, Hex. reflexivity.
  - rewrite update_subwidgets_eq. unfold shown_children. simpl.
    rewrite keys_shown_map. now apply filter_eqb_NoDup.
  - rewrite update_subwidgets_eq, Hex. unfold active_children. simpl.
    rewrite keys_map_snd with (g := fun kv => set_shown (fst kv =? name) (snd kv)).
    now apply filter_eqb_NoDup.
  - apply update_subwidgets_spec.
  - apply Hagain.
  - exact Hagain.
Qed.

Lemma update_subwidgets_known_witness :
  _selected_widget (fst (update_subwidgets twice_root "B")) = Some "B"
  /\ shown_children (fst (update_subwidgets twice_root "B")) = ["B"].
Proof.
  assert (Hnd : NoDup (keys (_subwidgets twice_root))).
  { simpl. repeat constructor; simpl; intuition discriminate. }
  assert (Hin : In "B" (keys (_subwidgets twice_root))).
  { simpl. auto. }
  split.
  - exact (proj1 (update_subwidgets_known twice_root "B" Hin Hnd)).
  - exact (proj1 (proj2 (update_subwidgets_known twice_root "B" Hin Hnd))).
Defined.

(** X5. The root answers [data] through its selection control, not through
    [_selected_widget]: a call of [update_subwidgets] on a node whose parent
    is no tree node may change the selected widget, but never what [data]
    returns. *)
Theorem root_data_follows_combo (w : AdaptiveTreeNode) (name : string) :
  isinstance_AdaptiveTreeNode (parent w) = false ->
  data (fst (update_subwidgets w name)) = data w
  /\ (In name (keys (_subwidgets w)) ->
      _selected_widget (fst (update_subwidgets w name)) = Some name).
Proof.
  intros Hp.
  destruct (update_subwidgets_spec w name)
    as (_ & Hp' & _ & _ & Hc & _ & Hsame & Hsel & _).
  split.
  - rewrite !data_unfold, Hp', Hp, Hc.
    destruct (_select_combo w) as [combo|]; [|reflexivity].
    apply (child_data_same_but_shown w _ _ _ Hsame).
  - intros Hin. apply existsb_eqb_In in Hin. now rewrite Hsel, Hin.
Qed.

Lemma root_data_follows_combo_witness :
  data (fst (update_subwidgets twice_root "B")) = data twice_root
  /\ data twice_root = Return "A"
  /\ _selected_widget (fst (update_subwidgets twice_root "B")) = Some "B".
Proof.
  split; [|split].
  - exact (proj1 (root_data_follows_combo twice_root "B" eq_refl)).
  - reflexivity.
  - apply (proj2 (root_data_follows_combo twice_root "B" eq_refl)).
    simpl. auto.
Defined.

(** X6. In a loaded tree, once the user has picked the entry [B] at a
    node, that node's aggregation is the one of the child under [B],
    passed on as it is by the root and put after the node's own name and
    fields by any other node, whatever was selected before. *)
Theorem pick_selects (tree : tree_dict) (root : AdaptiveTreeNode)
        (events : list Event) (path : list string)
        (w cB : AdaptiveTreeNode) (B : string) :
  init WidgetParent tree = Return root ->
  forallb from_gui events = true ->
  node_at path (run (show root) events) = Some w ->
  dict_get (_subwidgets w) B = Some cB ->
  _selected_widget (pick B w) = Some B
  /\ (exists b, active_child (pick B w) = Some (set_shown b cB))
  /\ data (pick B w) = aggregate_with w (data cB).
Proof.
  intros Hinit Hgui Hat HgetB.
  destruct (loaded_ok true _ _ _ events Hinit (fun _ => Hgui)) as [Hok0 _].
  pose proof (Everywhere_node_at _ path _ w Hok0 Hat) as Hok.
  assert (HinB : In B (keys (_subwidgets w))).
  { apply dict_get_Some in HgetB. now apply (in_map fst) in HgetB. }
  destruct (pick_ok true B w Hok) as [Hok1 Hp1].
  destruct (pick_same_but_shown B w) as (Hsame1 & Hpr1 & Hn1).
  pose proof (pick_selected B w Hok HinB) as Hsel1.
  pose proof (same_but_shown_get _ _ B Hsame1) as HgetB1.
  rewrite HgetB in HgetB1.
  destruct (dict_get (_subwidgets (pick B w)) B) as [cB1|] eqn:EB1;
    [|destruct HgetB1].
  destruct HgetB1 as (b & ->).
  split; [exact Hsel1 |]. split.
  - exists b. unfold active_child. now rewrite Hsel1.
  - rewrite (data_by_selected _ _ B Hok1 Hsel1 EB1), data_set_shown.
    now apply aggregate_with_same.
Qed.

Lemma pick_selects_witness :
  let w := match node_at ["Issue"] (show issue_root) with
           | Some n => n
           | None => issue_root
           end in
  data (pick "In class" w) = aggregate_with w (data (hide in_class_node)).
Proof.
  intros w.
  exact (proj2 (proj2 (pick_selects issue_tree issue_root [] ["Issue"] w
                                    (hide in_class_node) "In class"
                                    eq_refl eq_refl eq_refl eq_refl))).
Defined.

(** ** Branches that are not asked *)

Lemma truthy_on_key {V} (key : string) (g : V -> V) (d : dict V) :
  truthy (on_key key g d) = truthy d.
Proof. now destruct d. Qed.

Lemma child_data_on_key (w : AdaptiveTreeNode) (key : string)
      (g : AdaptiveTreeNode -> AdaptiveTreeNode) (k : string)
      (absent : PyException) :
  child_data (set_subwidgets w (on_key key g (_subwidgets w))) k absent
  = if String.eqb k key then
      match dict_get (_subwidgets w) k with
      | Some child => data (g child)
      | None => Raise absent
      end
    else child_data w k absent.
Proof.
  unfold child_data. simpl. rewrite dict_get_on_key.
  destruct (String.eqb k key); [|reflexivity].
  now destruct (dict_get (_subwidgets w) k).
Qed.

(** X7. [data] reads nothing off the branches it does not ask: whatever is
    done to a node that the path of consulted children does not reach, be it
    typing, selecting or anything else, the aggregation stays as it was. *)
Theorem data_ignores_other_branches
        (f : AdaptiveTreeNode -> AdaptiveTreeNode) (path : list string) :
  forall w,
    on_consulted_path path w = false ->
    data (at_path path f w) = data w.
Proof.
  induction path as [|key path IH]; intros w Hoff; [discriminate |].
  cbn [at_path]. rewrite !data_unfold. cbn [on_consulted_path] in Hoff.
  unfold consulted in Hoff.
  change (parent (set_subwidgets w (on_key key (at_path path f) (_subwidgets w))))
    with (parent w).
  change (_properties_widgets
            (set_subwidgets w (on_key key (at_path path f) (_subwidgets w))))
    with (_properties_widgets w).
  change (_name (set_subwidgets w (on_key key (at_path path f) (_subwidgets w))))
    with (_name w).
  change (_select_combo
            (set_subwidgets w (on_key key (at_path path f) (_subwidgets w))))
    with (_select_combo w).
  change (_selected_widget
            (set_subwidgets w (on_key key (at_path path f) (_subwidgets w))))
    with (_selected_widget w).
  change (_subwidgets
            (set_subwidgets w (on_key key (at_path path f) (_subwidgets w))))
    with (on_key key (at_path path f) (_subwidgets w)) at 1.
  rewrite truthy_on_key.
  assert (Hchild : forall k absent,
             (if isinstance_AdaptiveTreeNode (parent w)
              then if truthy (_subwidgets w) then _selected_widget w else None
              else match _select_combo w with
                   | Some combo => Some (Combo.currentText combo)
                   | None => None
                   end) = Some k ->
             child_data
               (set_subwidgets w (on_key key (at_path path f) (_subwidgets w)))
               k absent
             = child_data w k absent).
  { intros k absent Hk. rewrite child_data_on_key.
    destruct (String.eqb k key) eqn:E; [|reflexivity].
    apply String.eqb_eq in E. subst k. rewrite Hk in Hoff.
    unfold child_data.
    destruct (dict_get (_subwidgets w) key) as [child|]; [|reflexivity].
    rewrite String.eqb_refl in Hoff. simpl in Hoff. now apply IH. }
  destruct (isinstance_AdaptiveTreeNode (parent w)).
  - destruct (truthy (_subwidgets w)); [|reflexivity].
    destruct (_selected_widget w) as [k|]; [|reflexivity].
    now rewrite Hchild.
  - destruct (_select_combo w) as [combo|]; [|reflexivity].
    now apply Hchild.
Qed.

Lemma data_ignores_other_branches_witness :
  data (step (show issue_root)
             (Typed ["Issue"; "In class"] "class_names" "Foo"))
  = data (show issue_root).
Proof.
  exact (data_ignores_other_branches
           (type_into "class_names" "Foo") ["Issue"; "In class"]
           (show issue_root) eq_refl).
Defined.

(** ** The value of a text list *)

Lemma str_mem_append (c : ascii) (s t : string) :
  str_mem c (s ++ t) = str_mem c s || str_mem c t.
Proof.
  induction s as [|a s IH]; simpl; [reflexivity |].
  rewrite IH. now rewrite orb_assoc.
Qed.

Lemma str_mem_join (c : ascii) (sep : string) (parts : list string) :
  str_mem c sep = false ->
  Forall (fun part => str_mem c part = false) parts ->
  str_mem c (str_join sep parts) = false.
Proof.
  intros Hsep. unfold str_join.
  induction 1 as [|part parts Hpart _ IH]; [reflexivity |].
  simpl. destruct parts as [|part' parts]; [exact Hpart |].
  now rewrite !str_mem_append, Hpart, Hsep, IH.
Qed.

(** X8. The value of a multi-line text-list field never holds a newline, so
    a text entered on one line comes back as it is and no field of that
    kind breaks the output line. *)
Theorem multiple_text_edit_one_line (name raw : string) :
  exists text,
    Field.data (MultipleTextEdit name raw) = Return text
    /\ str_mem newline text = false
    /\ (str_mem newline raw = false -> text = raw).
Proof.
  eexists. split; [reflexivity |]. split.
  - apply str_mem_join; [reflexivity | apply str_split_free].
  - intros Hfree. now rewrite (str_split_free_one _ _ Hfree).
Qed.

(** ** Events keep the shape of the tree *)

Lemma shape_unfold (w : AdaptiveTreeNode) :
  shape w
  = ShapeNode (parent w) (_name w) (_label_name w)
      (map (fun kf => (fst kf, class_of (snd kf), field_name (snd kf)))
           (_properties_widgets w))
      (map (fun kv => (fst kv, shape (snd kv))) (_subwidgets w)).
Proof.
  destruct w as [p subs props n combo label sel vis]. simpl. f_equal.
  induction subs as [|[k c] subs IH]; simpl; [reflexivity | now rewrite IH].
Qed.

Lemma shape_set_shown (b : bool) (w : AdaptiveTreeNode) :
  shape (set_shown b w) = shape w.
Proof. now destruct w. Qed.

Lemma shape_same_but_shown (d d' : dict AdaptiveTreeNode) :
  same_but_shown d d' ->
  map (fun kv => (fst kv, shape (snd kv))) d'
  = map (fun kv => (fst kv, shape (snd kv))) d.
Proof.
  induction 1 as [|kv kv' d d' [Hk (b & Hb)] _ IH]; simpl; [reflexivity |].
  now rewrite Hk, Hb, shape_set_shown, IH.
Qed.

Lemma shape_update_subwidgets (w : AdaptiveTreeNode) (name : string) :
  shape (fst (update_subwidgets w name)) = shape w.
Proof.
  destruct (update_subwidgets_spec w name)
    as (_ & Hp & Hn & Hpr & _ & _ & Hsame & _).
  rewrite !shape_unfold, Hp, Hn, Hpr, (shape_same_but_shown _ _ Hsame).
  f_equal. rewrite update_subwidgets_eq. reflexivity.
Qed.

Lemma shape_pick (text : string) (w : AdaptiveTreeNode) :
  shape (pick text w) = shape w.
Proof.
  unfold pick. destruct (_select_combo w) as [combo|]; [|reflexivity].
  destruct (existsb (String.eqb text) (items combo)
            && negb (String.eqb (Combo.currentText combo) text));
    [|reflexivity].
  unfold on_selection_changed. rewrite shape_update_subwidgets.
  now destruct w.
Qed.

Lemma shape_type_into (field text : string) (w : AdaptiveTreeNode) :
  shape (type_into field text w) = shape w.
Proof.
  rewrite !shape_unfold. simpl. f_equal.
  induction (_properties_widgets w) as [|[k f] fields IH]; simpl;
    [reflexivity |].
  rewrite IH. destruct (String.eqb k field); simpl; [|reflexivity].
  now destruct f.
Qed.

Lemma shape_at_path (f : AdaptiveTreeNode -> AdaptiveTreeNode) :
  (forall v, shape (f v) = shape v) ->
  forall path w, shape (at_path path f w) = shape w.
Proof.
  intros Hf. induction path as [|key path IH]; intros w; simpl; [apply Hf |].
  rewrite !shape_unfold. simpl. f_equal.
  induction (_subwidgets w) as [|[k c] d IHd]; simpl; [reflexivity |].
  rewrite IHd. destruct (String.eqb k key); simpl; [now rewrite IH | reflexivity].
Qed.

(** X9. No event changes the shape of a tree: after any typing, picking
    and calls of [update_subwidgets], every node has the name, the parent,
    the fields (their keys, classes and names) and the children (their keys,
    in order) it was built with.  Nothing is added, removed or renamed. *)
Theorem events_keep_shape (w : AdaptiveTreeNode) (events : list Event) :
  shape (run w events) = shape w
  /\ keys (_subwidgets (run w events)) = keys (_subwidgets w)
  /\ keys (_properties_widgets (run w events)) = keys (_properties_widgets w)
  /\ _name (run w events) = _name w.
Proof.
  assert (H : shape (run w events) = shape w).
  { unfold run. revert w. induction events as [|e events IH]; intros w; simpl;
      [reflexivity |].
    rewrite IH. destruct e as [path field text|path text|path name]; simpl;
      apply shape_at_path; intros v.
    - apply shape_type_into.
    - apply shape_pick.
    - apply shape_update_subwidgets. }
  split; [exact H |]. rewrite !shape_unfold in H.
  injection H as Hp Hn Hl Hf Hc.
  split; [|split].
  - apply (f_equal (map fst)) in Hc. rewrite !map_map in Hc. exact Hc.
  - apply (f_equal (map (fun x => fst (fst x)))) in Hf.
    rewrite !map_map in Hf. exact Hf.
  - exact Hn.
Qed.

(** ** A tree just built *)

Lemma build_properties_empty (infos : list property_info) :
  forall acc d,
    build_properties infos acc = Return d ->
    Forall (fun f => field_text f = "") (values acc) ->
    Forall (fun f => field_text f = "") (values d).
Proof.
  induction infos as [|info infos IH]; intros acc d H Hacc.
  - now inversion H; subst.
  - cbn [build_properties] in H. unfold getitem in H.
    destruct (info_field info) as [kind|]; cbn [entry bind] in H;
      [|discriminate].
    destruct (dict_get SUPPORTED_USER_FIELD_TYPES kind) as [cls|];
      cbn [bind] in H; [|discriminate].
    destruct (info_name info) as [name|]; cbn [entry bind] in H; [|discriminate].
    apply (IH _ _ H). apply values_dict_set; [assumption |]. now destruct cls.
Qed.

Lemma build_subwidgets_empty (_name : string) (infos : list tree_dict) :
  Forall (fun t => forall p w, init p t = Return w ->
                               Forall (fun f => field_text f = "") (all_fields w))
         infos ->
  forall acc d,
    build_subwidgets _name infos acc = Return d ->
    Forall (fun c => Forall (fun f => field_text f = "") (all_fields c))
           (values acc) ->
    Forall (fun c => Forall (fun f => field_text f = "") (all_fields c))
           (values d).
Proof.
  induction 1 as [|t infos Ht _ IH]; intros acc d H Hacc.
  - now inversion H; subst.
  - cbn [build_subwidgets] in H.
    destruct (init (TreeNodeParent _name) t) as [subwidget|] eqn:Einit;
      cbn [bind] in H; [|discriminate].
    destruct (tree_name t) as [name|]; cbn [entry bind] in H; [|discriminate].
    apply (IH _ _ H). apply values_dict_set; [assumption |]. eauto.
Qed.

(** X10. In a tree just built every input is empty, in the branches that
    are not selected as well: the text of every field is the empty string,
    and so is every field's value. *)
Theorem init_fields_empty (tree : tree_dict) :
  forall p w,
    init p tree = Return w ->
    Forall (fun f => field_text f = "" /\ Field.data f = Return "")
           (all_fields w).
Proof.
  assert (Hdata : forall f, Field.implemented f = true -> field_text f = "" ->
                            Field.data f = Return "").
  { intros [n t|n t|n]; simpl; intros Hi Ht; subst; try reflexivity.
    discriminate. }
  assert (Htext : forall p w, init p tree = Return w ->
                              Forall (fun f => field_text f = "") (all_fields w)).
  { induction tree as [name properties|name properties infos IH]
      using tree_induction; intros p w Hinit; rewrite all_fields_unfold;
      apply Forall_app.
    - split.
      + apply init_properties in Hinit. destruct properties as [pinfos|].
        * apply (build_properties_empty _ _ _ Hinit). constructor.
        * inversion Hinit. constructor.
      + apply init_subwidgets_nil in Hinit.
        rewrite (proj2 Hinit eq_refl). constructor.
    - split.
      + apply init_properties in Hinit. destruct properties as [pinfos|].
        * apply (build_properties_empty _ _ _ Hinit). constructor.
        * inversion Hinit. constructor.
      + destruct (init_inv _ _ _ _ _ Hinit) as (_name & _ & -> & _).
        destruct (init_subwidgets _ _ _ _ _ Hinit) as (subs & Hsubs & Hsame).
        rewrite (same_but_shown_all_fields _ _ Hsame).
        pose proof (build_subwidgets_empty _ _ IH _ _ Hsubs (Forall_nil _)) as Hall.
        apply Forall_forall. intros f Hf. apply in_flat_map in Hf as (c & Hc & Hf).
        rewrite Forall_forall in Hall. specialize (Hall c Hc).
        rewrite Forall_forall in Hall. now apply Hall. }
  intros p w Hinit. pose proof (Htext p w Hinit) as Ht.
  assert (Himpl : Forall (fun f => Field.implemented f = true) (all_fields w)).
  { destruct (init_ok _ _ _ Hinit) as [Hbuilt _].
    apply freshly_built_tree_ok in Hbuilt. clear Hinit Ht.
    induction w as [w IH] using node_induction.
    apply tree_ok_elim in Hbuilt as (Hnode & _ & Hch).
    rewrite all_fields_unfold. apply Forall_app. split.
    - pose proof (ok_fields _ Hnode) as Hf. rewrite forallb_forall in Hf.
      now apply Forall_forall.
    - apply Forall_forall. intros f Hf. apply in_flat_map in Hf as (c & Hc & Hf).
      rewrite Forall_forall in IH, Hch. specialize (IH c Hc (Hch c Hc)).
      rewrite Forall_forall in IH. now apply IH. }
  rewrite Forall_forall in *. intros f Hf. split; auto.
Qed.

Lemma init_fields_empty_witness :
  Forall (fun f => field_text f = "" /\ Field.data f = Return "")
         (all_fields issue_root).
Proof. exact (init_fields_empty issue_tree WidgetParent issue_root eq_refl). Defined.

(** ** Loading, and the window that asks for it *)

(** X11. For a file whose content, once parsed, has the JSON types the
    constructor expects (what [tree_dict] holds), a load succeeds exactly
    when the file is read and parsed and the schema has the entries the
    constructor needs; the root it installs, and so the output that
    follows, owes nothing to the session before. *)
Theorem load_succeeds_iff (json_load_open : string -> Py tree_dict)
        (self : AdaptiveTreeForm) (file_name : string) :
  (snd (FormSession.load_from_file json_load_open self file_name) = Return tt
   <-> exists tree, json_load_open file_name = Return tree
                    /\ schema_ok tree = true)
  /\ (forall other : AdaptiveTreeForm,
         snd (FormSession.load_from_file json_load_open self file_name)
         = Return tt ->
         FormSession.load_from_file json_load_open other file_name
         = FormSession.load_from_file json_load_open self file_name)
  /\ (snd (FormSession.load_from_file json_load_open self file_name) = Return tt ->
      exists root, _root (fst (FormSession.load_from_file
                                 json_load_open self file_name)) = Some root
                   /\ shown root = true).
Proof.
  unfold FormSession.load_from_file.
  destruct (json_load_open file_name) as [tree|e].
  - pose proof (init_cases tree WidgetParent) as Hcases.
    destruct (init WidgetParent tree) as [root|e]; simpl.
    + split; [|split].
      * split; [eauto | reflexivity].
      * reflexivity.
      * intros _. exists (show root). now destruct root.
    + destruct Hcases as [Hno _]. split; [|split]; try discriminate.
      split; [discriminate |]. intros (tree' & [= <-] & Hok). congruence.
  - simpl. split; [|split]; try discriminate.
    split; [discriminate |]. intros (tree' & Htree & _). discriminate.
Qed.

Lemma nth_error_snoc {A} (l : list A) (x : A) :
  nth_error (l ++ [x]) (length l) = Some x.
Proof. induction l as [|y l IH]; simpl; [reflexivity | exact IH]. Qed.

Lemma nth_error_before {A} (l : list A) (x y : A) (n : nat) :
  nth_error l n = Some y -> nth_error (l ++ [x]) n = Some y.
Proof.
  revert n. induction l as [|z l IH]; intros [|n]; simpl; try discriminate; auto.
Qed.

Lemma replace_nth_snoc {A} (l : list A) (x y : A) :
  Main.replace_nth (length l) y (l ++ [x]) = (l ++ [y])%list.
Proof. induction l as [|z l IH]; simpl; [reflexivity | now rewrite IH]. Qed.

Lemma load_is_atomic_aux (json_load_open : string -> Py tree_dict)
      (self : AdaptiveTreeForm) (file_name : string) :
  forall self' e,
    FormSession.load_from_file json_load_open self file_name = (self', Raise e) ->
    self' = self.
Proof.
  unfold FormSession.load_from_file. intros self' e.
  destruct (json_load_open file_name) as [tree|e'].
  - destruct (init WidgetParent tree); now intros [= <-].
  - now intros [= <-].
Qed.

(** X12. When opening a model fails, the exception leaves
    [on_open_model] and the form on screen stays what it was; but
    [self.adaptive_form] already refers to the new form, which has no root,
    so that a click on the copy button hands [None] to the clipboard and
    not the output of the form on screen. *)
Theorem open_model_failure (json_load_open : string -> Py tree_dict)
        (self : MainWindow) (model_file_name : string) (e : PyException) :
  snd (Main.on_open_model json_load_open self model_file_name) = Raise e ->
  adaptive_form (fst (Main.on_open_model json_load_open self model_file_name))
  = Some (length (forms self))
  /\ nth_error
       (forms (fst (Main.on_open_model json_load_open self model_file_name)))
       (length (forms self))
     = Some FormSession.new
  /\ centralWidget (fst (Main.on_open_model json_load_open self model_file_name))
     = centralWidget self
  /\ (forall form,
         Main.displayed self = Some form ->
         Main.displayed
           (fst (Main.on_open_model json_load_open self model_file_name))
         = Some form)
  /\ Main.copy_clicked
       (fst (Main.on_open_model json_load_open self model_file_name))
     = Return None.
Proof.
  unfold Main.on_open_model.
  destruct model_file_name as [|c rest]; [discriminate |].
  pose proof (load_is_atomic_aux json_load_open FormSession.new (String c rest))
    as Hatomic.
  destruct (FormSession.load_from_file json_load_open FormSession.new
                                       (String c rest)) as [form outcome].
  destruct outcome as [[]|e']; [discriminate |].
  specialize (Hatomic form e' eq_refl). subst form. simpl. intros _.
  split; [reflexivity |]. split; [apply nth_error_snoc |].
  split; [reflexivity |]. split.
  - unfold Main.displayed. simpl. destruct (centralWidget self) as [id|];
      [|discriminate]. intros form. apply nth_error_before.
  - unfold Main.copy_clicked. simpl. now rewrite nth_error_snoc.
Qed.

Lemma open_model_failure_witness :
  Main.displayed
    (fst (Main.on_open_model
            (fun _ => Return odd_tree)
            (Window [Form (Some (show issue_root))] (Some 0) (Some 0) (Some 0))
            "odd.json"))
  = Some (Form (Some (show issue_root)))
  /\ Main.copy_clicked
       (fst (Main.on_open_model
               (fun _ => Return odd_tree)
               (Window [Form (Some (show issue_root))] (Some 0) (Some 0) (Some 0))
               "odd.json"))
     = Return None.
Proof.
  destruct (open_model_failure
              (fun _ => Return odd_tree)
              (Window [Form (Some (show issue_root))] (Some 0) (Some 0) (Some 0))
              "odd.json" (KeyError "DateEdit") eq_refl)
    as (_ & _ & _ & Hshown & Hcopy).
  split; [now apply Hshown | exact Hcopy].
Defined.

Lemma user_events_on_new_form (before : list AdaptiveTreeForm)
      (events : list Event) :
  forall root,
    fold_left Main.user_event events
              (Window (before ++ [Form (Some root)])
                      (Some (length before)) (Some (length before))
                      (Some (length before)))
    = Window (before ++ [Form (Some (run root events))])
             (Some (length before)) (Some (length before))
             (Some (length before)).
Proof.
  induction events as [|e events IH]; intros root; [reflexivity |].
  cbn [fold_left]. unfold Main.user_event at 2. cbn [centralWidget forms].
  rewrite nth_error_snoc, replace_nth_snoc. cbn [adaptive_form _button_copy_data].
  rewrite IH. reflexivity.
Qed.

(** X13. When opening a model succeeds, the new form becomes both
    [self.adaptive_form] and the central widget: whatever the user then
    does to the form on screen, a click on the copy button hands over the
    output of that very form.  A cancelled dialog changes nothing. *)
Theorem open_model_success (json_load_open : string -> Py tree_dict)
        (self : MainWindow) (model_file_name : string)
        (tree : tree_dict) (root : AdaptiveTreeNode) :
  model_file_name <> "" ->
  json_load_open model_file_name = Return tree ->
  init WidgetParent tree = Return root ->
  snd (Main.on_open_model json_load_open self model_file_name) = Return tt
  /\ (forall events,
         Main.displayed
           (fold_left Main.user_event events
              (fst (Main.on_open_model json_load_open self model_file_name)))
         = Some (Form (Some (run (show root) events)))
         /\ Main.copy_clicked
              (fold_left Main.user_event events
                 (fst (Main.on_open_model json_load_open self model_file_name)))
            = FormSession.data (Form (Some (run (show root) events))))
  /\ Main.on_open_model json_load_open self "" = (self, Return tt).
Proof.
  intros Hname Hjson Hinit. unfold Main.on_open_model.
  destruct model_file_name as [|c rest]; [congruence |].
  unfold FormSession.load_from_file. rewrite Hjson, Hinit. cbn [fst snd forms].
  split; [reflexivity |]. split; [|reflexivity].
  intros events. rewrite user_events_on_new_form.
  unfold Main.displayed, Main.copy_clicked. simpl.
  rewrite nth_error_snoc. auto.
Qed.

Lemma open_model_success_witness :
  Main.copy_clicked
    (fold_left Main.user_event
               [Typed ["Issue"] "issue_number" "42"; Picked ["Issue"] "In class"]
               (fst (Main.on_open_model (fun _ => Return issue_tree)
                                        Main.new "issue.json")))
  = FormSession.data
      (Form (Some (run (show issue_root)
                       [Typed ["Issue"] "issue_number" "42";
                        Picked ["Issue"] "In class"]))).
Proof.
  assert (Hname : "issue.json" <> "") by discriminate.
  exact (proj2 (proj1 (proj2 (open_model_success
                                (fun _ => Return issue_tree) Main.new
                                "issue.json" issue_tree issue_root
                                Hname eq_refl eq_refl))
                      [Typed ["Issue"] "issue_number" "42";
                       Picked ["Issue"] "In class"])).
Defined.
